(** * TKY2JGD: mesh-code geometry and bilinear interpolation

    A shallow embedding of [tky2jgd.py] and the proofs of its specification.

    Python [float] is IEEE 754 binary64; it is modelled bit-exactly by the
    Standard Library's [SpecFloat] (precision 53, [emax] 1024), Python [int]
    by [Z], the global dictionary [PAR] by a [gmap] that is passed
    explicitly, and exceptions by the [result] type. *)

From Stdlib Require Import ZArith Bool List String Ascii Lia.
From Stdlib Require Import Floats.SpecFloat.
From stdpp Require Import gmap.

Local Open Scope Z_scope.

(** ** Exceptions and the error monad *)

Inductive exn : Type :=
  | ValueError
  | OverflowError
  | AssertionError
  | KeyError.

Inductive result (A : Type) : Type :=
  | Return (a : A)
  | Raise (e : exn).

Arguments Return {A} a.
Arguments Raise {A} e.

Definition rbind {A B : Type} (m : result A) (f : A -> result B) : result B :=
  match m with
  | Return a => f a
  | Raise e => Raise e
  end.

#[global] Instance result_ret : MRet result := @Return.
#[global] Instance result_bind : MBind result := fun A B f m => rbind m f.

(** Python's [assert]. *)
Definition py_assert (b : bool) : result unit :=
  if b then Return tt else Raise AssertionError.

(** ** Binary64 floating point *)

Module F.

Definition prec : Z := 53.
Definition emax : Z := 1024.

Definition float : Type := spec_float.

(** The values a Python float can hold: canonical mantissa, bounded
    exponent. *)
Definition valid (x : float) : bool := valid_binary prec emax x.

Definition add : float -> float -> float := SFadd prec emax.
Definition sub : float -> float -> float := SFsub prec emax.
Definition mul : float -> float -> float := SFmul prec emax.
Definition div : float -> float -> float := SFdiv prec emax.
Definition opp : float -> float := SFopp.
Definition ltb : float -> float -> bool := SFltb.
Definition leb : float -> float -> bool := SFleb.
Definition eqb : float -> float -> bool := SFeqb.

Definition is_nan (x : float) : bool :=
  match x with S754_nan => true | _ => false end.

Definition is_zero (x : float) : bool :=
  match x with S754_zero _ => true | _ => false end.

(** Neither an infinity nor a NaN. *)
Definition is_finite (x : float) : bool :=
  match x with
  | S754_zero _ | S754_finite _ _ _ => true
  | S754_infinity _ | S754_nan => false
  end.

(** The float nearest to an integer (ties to even); infinite when the
    integer is too large. *)
Definition of_Z (n : Z) : float := binary_normalize prec emax n 0 false.

(** Conversion of an [int] operand of a mixed int/float operation:
    [OverflowError] when the integer is too large for a float. *)
Definition of_int (n : Z) : result float :=
  match of_Z n with
  | S754_infinity _ => Raise OverflowError
  | x => Return x
  end.

(** The float nearest to the ratio [n / d], with sign [s]. *)
Definition of_ratio (s : bool) (n : N) (d : positive) : float :=
  match n with
  | N0 => S754_zero s
  | Npos p =>
      let '(q, e, l) := SFdiv_core_binary prec emax (Zpos p) 0 (Zpos d) 0 in
      binary_round_aux prec emax s q e l
  end.

(** The decimal literal [n * 10^-k], read as Python reads a float
    literal: the nearest binary64 value. *)
Definition lit (n : N) (k : nat) : float :=
  of_ratio false n (Z.to_pos (10 ^ Z.of_nat k)).

(** [math.trunc]: rounds toward zero; raises on NaN and infinities. *)
Definition trunc (x : float) : result Z :=
  match x with
  | S754_nan => Raise ValueError
  | S754_infinity _ => Raise OverflowError
  | S754_zero _ => Return 0
  | S754_finite s m e => Return (cond_Zopp s (Z.shiftl (Zpos m) e))
  end.

End F.

Declare Scope f64_scope.
Delimit Scope f64_scope with f64.
Bind Scope f64_scope with F.float.
Infix "+" := F.add : f64_scope.
Infix "-" := F.sub : f64_scope.
Infix "*" := F.mul : f64_scope.
Infix "/" := F.div : f64_scope.

(** ** The program *)

(** [interpol]: bilinear interpolation on the unit square.  Python parses
    [a + B * X + C * Y + D * X * Y] as
    [((a + B * X) + C * Y) + ((D * X) * Y)]. *)
Definition interpol (u1 u2 u3 u4 X0to1 Y0to1 : F.float) : F.float :=
  let a := u1 in
  let B := (u2 - u1)%f64 in
  let C := (u3 - u1)%f64 in
  let D := (u4 - u2 - u3 + u1)%f64 in
  (a + B * X0to1 + C * Y0to1 + D * X0to1 * Y0to1)%f64.

(** [class MeshCode]: three integer codes and the offset inside the
    tertiary cell. *)
Record MeshCode : Type := mkMeshCode {
  mesh_code1 : Z;
  mesh_code2 : Z;
  mesh_code3 : Z;
  mod_latitude : F.float;
  mod_longitude : F.float
}.

(** The default arguments [mlat=0.0, mlon=0.0] of [MeshCode.__init__]. *)
Definition MeshCode3 (mc1 mc2 mc3 : Z) : MeshCode :=
  mkMeshCode mc1 mc2 mc3 (S754_zero false) (S754_zero false).

Definition mesh_code123 (mc : MeshCode) : Z :=
  mesh_code1 mc * 10000 + mesh_code2 mc * 100 + mesh_code3 mc.

(** The float literal [0.00000000001]. *)
Definition EPS : F.float := F.lit 1 11.

(** [lat_lon2mesh_code].  An [int] operand of a float operation is
    converted with [F.of_int]; [math.trunc] and [assert] can raise. *)
Definition lat_lon2mesh_code (lat lon : F.float) : result MeshCode :=
  lat1 ← F.trunc (lat * F.lit 15 1)%f64;
  tlon ← F.trunc lon;
  let lon1 := tlon - 100 in
  flat1 ← F.of_int lat1;
  lat2 ← F.trunc (F.lit 80 1 * (F.lit 15 1 * lat - flat1))%f64;
  flon1 ← F.of_int (lon1 + 100);
  lon2 ← F.trunc (F.lit 80 1 * (lon - flon1))%f64;
  flat1 ← F.of_int lat1;
  flat2 ← F.of_int lat2;
  lat3 ← F.trunc (F.lit 100 1
                   * (F.lit 120 1 * lat - F.lit 80 1 * flat1 - flat2)
                   + EPS)%f64;
  flon1 ← F.of_int (lon1 + 100);
  flon2 ← F.of_int lon2;
  lon3 ← F.trunc (F.lit 100 1
                   * (F.lit 80 1 * (lon - flon1) - flon2)
                   + EPS)%f64;
  let '(lat1, lat2, lat3) :=
    if lat3 =? 10 then
      if lat2 + 1 =? 8 then (lat1 + 1, 0, 0) else (lat1, lat2 + 1, 0)
    else (lat1, lat2, lat3) in
  let '(lon1, lon2, lon3) :=
    if lon3 =? 10 then
      if lon2 + 1 =? 8 then (lon1 + 1, 0, 0) else (lon1, lon2 + 1, 0)
    else (lon1, lon2, lon3) in
  flat1 ← F.of_int lat1;
  flat2 ← F.of_int (10 * lat2);
  flat3 ← F.of_int lat3;
  let mlat := (F.lit 1200 1 * lat - F.lit 800 1 * flat1 - flat2 - flat3)%f64 in
  flon1 ← F.of_int (lon1 + 100);
  flon2 ← F.of_int (10 * lon2);
  flon3 ← F.of_int lon3;
  let mlon := (F.lit 800 1 * (lon - flon1) - flon2 - flon3)%f64 in
  py_assert ((0 <=? lat2) && (lat2 <=? 7));;
  py_assert ((0 <=? lon2) && (lon2 <=? 7));;
  py_assert ((0 <=? lat3) && (lat3 <=? 9));;
  py_assert ((0 <=? lon3) && (lon3 <=? 9));;
  let mc1 := lat1 * 100 + lon1 in
  let mc2 := lat2 * 10 + lon2 in
  let mc3 := lat3 * 10 + lon3 in
  Return (mkMeshCode mc1 mc2 mc3 mlat mlon).

(** [tonari_mesh_code]: the east, north and north-east neighbours.  Python's
    [//] and [%] with a positive divisor are [Z.div] and [Z.modulo]. *)
Definition tonari_mesh_code (mesh_code : MeshCode)
  : MeshCode * MeshCode * MeshCode :=
  let lat1 := mesh_code1 mesh_code / 100 in
  let lon1 := mesh_code1 mesh_code mod 100 in
  let lat2 := mesh_code2 mesh_code / 10 in
  let lon2 := mesh_code2 mesh_code mod 10 in
  let lat3 := mesh_code3 mesh_code / 10 in
  let lon3 := mesh_code3 mesh_code mod 10 in
  (* calc east *)
  let '(lon1_tmp, lon2_tmp, lon3_tmp) :=
    if negb (lon3 =? 9) then (lon1, lon2, lon3 + 1)
    else if negb (lon2 =? 7) then (lon1, lon2 + 1, 0)
    else (lon1 + 1, 0, 0) in
  let mesh_code_east :=
    MeshCode3 (lat1 * 100 + lon1_tmp) (lat2 * 10 + lon2_tmp)
              (lat3 * 10 + lon3_tmp) in
  (* calc north *)
  let '(lat1_tmp, lat2_tmp, lat3_tmp) :=
    if negb (lat3 =? 9) then (lat1, lat2, lat3 + 1)
    else if negb (lat2 =? 7) then (lat1, lat2 + 1, 0)
    else (lat1 + 1, 0, 0) in
  let mesh_code_north :=
    MeshCode3 (lat1_tmp * 100 + lon1) (lat2_tmp * 10 + lon2)
              (lat3_tmp * 10 + lon3) in
  (* north east *)
  let mesh_code_north_east :=
    MeshCode3 (lat1_tmp * 100 + lon1_tmp) (lat2_tmp * 10 + lon2_tmp)
              (lat3_tmp * 10 + lon3_tmp) in
  (mesh_code_east, mesh_code_north, mesh_code_north_east).

(** ** The parameter file *)

(** The fragment of regular expressions [PAR_RE] is written in: literal
    characters, [c?], [[class]+] and capture groups.  Lines are ASCII
    strings. *)
Inductive re_item : Type :=
  | RChar (c : ascii)
  | ROpt (c : ascii)
  | RPlus (cls : ascii -> bool)
  | ROpen
  | RClose.

(** Groups closed so far, and the text of the group being captured. *)
Record captures : Type := mkCaptures {
  closed : list string;
  current : option string
}.

Definition cap_open (st : captures) : captures :=
  mkCaptures (closed st) (Some EmptyString).

Definition cap_close (st : captures) : captures :=
  match current st with
  | Some g => mkCaptures (closed st ++ [g]) None
  | None => st
  end.

Definition cap_take (a : ascii) (st : captures) : captures :=
  match current st with
  | Some g => mkCaptures (closed st) (Some (g ++ String a EmptyString)%string)
  | None => st
  end.

(** A backtracking matcher anchored at the start of the string, as
    [Pattern.match]: quantifiers are greedy and give characters back when
    the rest of the pattern fails. *)
Fixpoint re_run (p : list re_item) (s : string) (st : captures) {struct p}
  : option (list string) :=
  match p with
  | [] => Some (closed st)
  | ROpen :: p' => re_run p' s (cap_open st)
  | RClose :: p' => re_run p' s (cap_close st)
  | RChar c :: p' =>
      match s with
      | String a r =>
          if Ascii.eqb a c then re_run p' r (cap_take a st) else None
      | EmptyString => None
      end
  | ROpt c :: p' =>
      match s with
      | String a r =>
          if Ascii.eqb a c then
            match re_run p' r (cap_take a st) with
            | Some g => Some g
            | None => re_run p' s st
            end
          else re_run p' s st
      | EmptyString => re_run p' s st
      end
  | RPlus cls :: p' =>
      let star :=
        fix star (s : string) (st : captures) {struct s} :=
          match s with
          | String a r =>
              if cls a then
                match star r (cap_take a st) with
                | Some g => Some g
                | None => re_run p' s st
                end
              else re_run p' s st
          | EmptyString => re_run p' s st
          end in
      match s with
      | String a r => if cls a then star r (cap_take a st) else None
      | EmptyString => None
      end
  end.

Definition re_match (p : list re_item) (s : string) : option (list string) :=
  re_run p s (mkCaptures [] None).

(** [\d] and [\s] on ASCII characters. *)
Definition is_digit (c : ascii) : bool :=
  let n := Z.of_nat (nat_of_ascii c) in (48 <=? n) && (n <=? 57).

Definition is_space (c : ascii) : bool :=
  let n := Z.of_nat (nat_of_ascii c) in
  ((9 <=? n) && (n <=? 13)) || ((28 <=? n) && (n <=? 32)).

(** [-?\d+\.\d+] in a group. *)
Definition re_decimal : list re_item :=
  [ROpen; ROpt "-"; RPlus is_digit; RChar "."; RPlus is_digit; RClose].

(** [PAR_RE = (\d+)\s+(-?\d+\.\d+)\s+(-?\d+\.\d+)]. *)
Definition PAR_RE : list re_item :=
  [ROpen; RPlus is_digit; RClose; RPlus is_space]
    ++ re_decimal ++ [RPlus is_space] ++ re_decimal.

Definition digit_value (c : ascii) : Z := Z.of_nat (nat_of_ascii c) - 48.

(** The number a string of decimal digits denotes; [None] when a character
    is not a digit. *)
Fixpoint read_digits (s : string) (acc : Z) : option Z :=
  match s with
  | EmptyString => Some acc
  | String c r =>
      if is_digit c then read_digits r (10 * acc + digit_value c) else None
  end.

(** [int(s)] on a string of digits. *)
Definition py_int (s : string) : result Z :=
  match s with
  | EmptyString => Raise ValueError
  | _ => match read_digits s 0 with
         | Some n => Return n
         | None => Raise ValueError
         end
  end.

Fixpoint split_dot (s : string) : option (string * string) :=
  match s with
  | EmptyString => None
  | String c r =>
      if Ascii.eqb c "." then Some (EmptyString, r)
      else match split_dot r with
           | Some (i, f) => Some (String c i, f)
           | None => None
           end
  end.

(** [float(s)] on a string of the shape [-?\d+\.\d+]: the nearest float to
    the decimal number written. *)
Definition py_float (s : string) : result F.float :=
  let '(sign, body) :=
    match s with
    | String c r => if Ascii.eqb c "-" then (true, r) else (false, s)
    | EmptyString => (false, s)
    end in
  match split_dot body with
  | Some (String a i, String b f) =>
      match read_digits (String a i ++ String b f) 0 with
      | Some n =>
          Return (F.of_ratio sign (Z.to_N n)
                    (Z.to_pos (10 ^ Z.of_nat (String.length (String b f)))))
      | None => Raise ValueError
      end
  | _ => Raise ValueError
  end.

Definition group (g : list string) (i : nat) : string :=
  nth (i - 1) g EmptyString.

Abbreviation store := (gmap Z (F.float * F.float)).

(** The body of the loop of [load_parameter] on one line. *)
Definition load_line (PAR : store) (line : string) : result store :=
  match re_match PAR_RE line with
  | None => Return PAR
  | Some m =>
      dB ← py_float (group m 2);
      dL ← py_float (group m 3);
      code ← py_int (group m 1);
      Return (<[code := (dB, dL)]> PAR)
  end.

Fixpoint load_lines (PAR : store) (lines : list string) : result store :=
  match lines with
  | [] => Return PAR
  | line :: rest => PAR' ← load_line PAR line; load_lines PAR' rest
  end.

(** [load_parameter]: the value of the global [PAR] after the call, given
    the lines of the file. *)
Definition load_parameter (par_file : list string) : result store :=
  load_lines ∅ par_file.

(** ** Interpolation engine *)

(** What [bilinear] does besides computing: the calls it makes and its
    accesses to [PAR], in order. *)
Inductive event : Type :=
  | CallMeshCode (lat lon : F.float)
  | CallTonari (mc : MeshCode)
  | Contains (code : Z)
  | GetItem (code : Z).

(** Computations that log events and may raise. *)
Definition traced (A : Type) : Type := (list event * result A)%type.

#[global] Instance traced_ret : MRet traced := fun A a => ([], Return a).
#[global] Instance traced_bind : MBind traced := fun A B f m =>
  match m with
  | (t, Return a) => let '(t', r) := f a in (t ++ t', r)
  | (t, Raise e) => (t, Raise e)
  end.

(** Log [ev], then continue with the outcome [r]. *)
Definition emit {A : Type} (ev : event) (r : result A) : traced A := ([ev], r).

(** [code not in PAR]. *)
Definition not_in (PAR : store) (code : Z) : traced bool :=
  emit (Contains code)
       (Return (match PAR !! code with None => true | Some _ => false end)).

(** [PAR[code]]. *)
Definition getitem (PAR : store) (code : Z) : traced (F.float * F.float) :=
  emit (GetItem code)
       (match PAR !! code with Some v => Return v | None => Raise KeyError end).

(** Python's short-circuit [or]. *)
Definition por (a b : traced bool) : traced bool :=
  x ← a; if (x : bool) then mret true else b.

(** [bilinear]; the integer literals of the box test compare as the floats
    of the same value. *)
Definition bilinear_traced (PAR : store) (lat lon : F.float)
  : traced (option F.float * option F.float) :=
  if F.ltb lat (F.of_Z 20) || F.ltb (F.of_Z 46) lat
     || F.ltb lon (F.of_Z 120) || F.ltb (F.of_Z 154) lon
  then mret (None, None)
  else
    MC0 ← emit (CallMeshCode lat lon) (lat_lon2mesh_code lat lon);
    '(MCE, MCN, MCNE) ← emit (CallTonari MC0) (Return (tonari_mesh_code MC0));
    missing ← por (not_in PAR (mesh_code123 MC0))
              (por (not_in PAR (mesh_code123 MCE))
              (por (not_in PAR (mesh_code123 MCN))
                   (not_in PAR (mesh_code123 MCNE))));
    if (missing : bool) then mret (None, None)
    else
      '(dB00, dL00) ← getitem PAR (mesh_code123 MC0);
      '(dB10, dL10) ← getitem PAR (mesh_code123 MCE);
      '(dB01, dL01) ← getitem PAR (mesh_code123 MCN);
      '(dB11, dL11) ← getitem PAR (mesh_code123 MCNE);
      let dB := interpol dB00 dB10 dB01 dB11
                         (mod_longitude MC0) (mod_latitude MC0) in
      let dL := interpol dL00 dL10 dL01 dL11
                         (mod_longitude MC0) (mod_latitude MC0) in
      mret (Some dB, Some dL).

(** The value [bilinear] returns, or the exception it raises. *)
Definition bilinear (PAR : store) (lat lon : F.float)
  : result (option F.float * option F.float) :=
  snd (bilinear_traced PAR lat lon).

(** ** Conversion facade *)

(** What [main] prints. *)
Inductive output : Type :=
  | Stdout (a b : F.float)
  | StderrParNotFound.

(** [main] after argument parsing: [par_file] is [None] when the parameter
    file does not exist, and its lines otherwise.  Returns what is printed
    and the exit status. *)
Definition main (par_file : option (list string)) (latitude longitude : F.float)
  : result (list output * Z) :=
  match par_file with
  | None => Return ([StderrParNotFound], 1)
  | Some lines =>
      PAR ← load_parameter lines;
      '(dB, dL) ← bilinear PAR latitude longitude;
      match dB, dL with
      | Some dB, Some dL =>
          k ← F.of_int 3600;
          let lon := (longitude + dL / k)%f64 in
          k ← F.of_int 3600;
          let lat := (latitude + dB / k)%f64 in
          Return ([Stdout lat lon], 0)
      | _, _ =>
          Return ([Stdout (F.opp (F.lit 99990 1)) (F.opp (F.lit 99990 1))], 0)
      end
  end.

(** * Definitions used by the statements *)

(** ** Digit chains of a mesh code *)

(** One mesh step along a digit chain [(primary, secondary, tertiary)], in
    the words of the specification: add one to the tertiary digit; if it
    would exceed 9, reset it and carry into the secondary digit; if that
    exceeds 7, reset it and carry into the primary component. *)
Definition chain_step (d : Z * Z * Z) : Z * Z * Z :=
  let '(d1, d2, d3) := d in
  if 9 <? d3 + 1 then
    if 7 <? d2 + 1 then (d1 + 1, 0, 0) else (d1, d2 + 1, 0)
  else (d1, d2, d3 + 1).

(** The carry of [chain_step] into the primary component. *)
Definition carry (d2 d3 : Z) : Z :=
  if (9 <? d3 + 1) && (7 <? d2 + 1) then 1 else 0.

(** The decomposition [tonari_mesh_code] starts with. *)
Definition lat_digits (mc : MeshCode) : Z * Z * Z :=
  (mesh_code1 mc / 100, mesh_code2 mc / 10, mesh_code3 mc / 10).

Definition lon_digits (mc : MeshCode) : Z * Z * Z :=
  (mesh_code1 mc mod 100, mesh_code2 mc mod 10, mesh_code3 mc mod 10).

(** The mesh code with the given digit chains and offset (0, 0). *)
Definition of_digits (lat lon : Z * Z * Z) : MeshCode :=
  let '(lat1, lat2, lat3) := lat in
  let '(lon1, lon2, lon3) := lon in
  MeshCode3 (lat1 * 100 + lon1) (lat2 * 10 + lon2) (lat3 * 10 + lon3).

(** Secondary digits in [0,7], tertiary digits in [0,9]. *)
Definition digits_in_range (mc : MeshCode) : Prop :=
  (0 <= mesh_code2 mc / 10 <= 7 /\ 0 <= mesh_code2 mc mod 10 <= 7) /\
  (0 <= mesh_code3 mc / 10 <= 9 /\ 0 <= mesh_code3 mc mod 10 <= 9).

Definition east (mc : MeshCode) : MeshCode := (tonari_mesh_code mc).1.1.
Definition north (mc : MeshCode) : MeshCode := (tonari_mesh_code mc).1.2.
Definition north_east (mc : MeshCode) : MeshCode := (tonari_mesh_code mc).2.

(** ** Object identity *)

(** [MeshCode] defines no [__eq__]: [==] on two instances is Python's
    default, the identity of the objects.  Instances live in a heap and are
    compared by address. *)
Definition ref : Type := positive.
Definition heap : Type := gmap positive MeshCode.
Definition py_eq (a b : ref) : bool := bool_decide (a = b).

(** ** Shapes of matched text *)

Fixpoint all_chars (cls : ascii -> bool) (s : string) : bool :=
  match s with
  | EmptyString => true
  | String c r => cls c && all_chars cls r
  end.

(** The captures after the characters of [w] were consumed. *)
Fixpoint cap_take_all (w : string) (st : captures) : captures :=
  match w with
  | EmptyString => st
  | String c r => cap_take_all r (cap_take c st)
  end.

(** Text of the shape [-?\d+\.\d+]. *)
Definition decimal_shape (s : string) : Prop :=
  exists (sign : bool) (a : ascii) (i : string) (b : ascii) (f : string),
    s = ((if sign then "-" else "") ++ String a i ++ "." ++ String b f)%string /\
    all_chars is_digit (String a i) = true /\ all_chars is_digit (String b f) = true.

(** ** Carry normalisation *)

(** The digits before carry normalisation, as the specification computes
    them ([floor] is [math.trunc]). *)
Definition spec_lat_digits (lat : F.float) : result (Z * Z * Z) :=
  lat1 ← F.trunc (lat * F.lit 15 1)%f64;
  flat1 ← F.of_int lat1;
  lat2 ← F.trunc (F.lit 80 1 * (F.lit 15 1 * lat - flat1))%f64;
  flat1 ← F.of_int lat1;
  flat2 ← F.of_int lat2;
  lat3 ← F.trunc (F.lit 100 1
                   * (F.lit 120 1 * lat - F.lit 80 1 * flat1 - flat2)
                   + EPS)%f64;
  Return (lat1, lat2, lat3).

Definition spec_lon_digits (lon : F.float) : result (Z * Z * Z) :=
  tlon ← F.trunc lon;
  let lon1 := tlon - 100 in
  flon1 ← F.of_int (lon1 + 100);
  lon2 ← F.trunc (F.lit 80 1 * (lon - flon1))%f64;
  flon1 ← F.of_int (lon1 + 100);
  flon2 ← F.of_int lon2;
  lon3 ← F.trunc (F.lit 100 1
                   * (F.lit 80 1 * (lon - flon1) - flon2)
                   + EPS)%f64;
  Return (lon1, lon2, lon3).

(** Carry normalisation in the words of the specification. *)
Definition carry_normalize (d : Z * Z * Z) : Z * Z * Z :=
  let '(d1, d2, d3) := d in
  if d3 =? 10 then
    let d2' := d2 + 1 in
    if d2' =? 8 then (d1 + 1, 0, 0) else (d1, d2', 0)
  else (d1, d2, d3).

(** What [lat_lon2mesh_code] does with the normalised digits: the offsets,
    the assertions and the mesh code. *)
Definition mesh_code_of_digits (lat lon : F.float) (dlat dlon : Z * Z * Z)
  : result MeshCode :=
  let '(lat1, lat2, lat3) := dlat in
  let '(lon1, lon2, lon3) := dlon in
  flat1 ← F.of_int lat1;
  flat2 ← F.of_int (10 * lat2);
  flat3 ← F.of_int lat3;
  let mlat := (F.lit 1200 1 * lat - F.lit 800 1 * flat1 - flat2 - flat3)%f64 in
  flon1 ← F.of_int (lon1 + 100);
  flon2 ← F.of_int (10 * lon2);
  flon3 ← F.of_int lon3;
  let mlon := (F.lit 800 1 * (lon - flon1) - flon2 - flon3)%f64 in
  py_assert ((0 <=? lat2) && (lat2 <=? 7));;
  py_assert ((0 <=? lon2) && (lon2 <=? 7));;
  py_assert ((0 <=? lat3) && (lat3 <=? 9));;
  py_assert ((0 <=? lon3) && (lon3 <=? 9));;
  Return (mkMeshCode (lat1 * 100 + lon1) (lat2 * 10 + lon2) (lat3 * 10 + lon3)
                     mlat mlon).

(** ** The domain box *)

(** A coordinate inside the box [20, 46] x [120, 154]. *)
Definition in_box (lat lon : F.float) : bool :=
  F.leb (F.of_Z 20) lat && F.leb lat (F.of_Z 46)
  && F.leb (F.of_Z 120) lon && F.leb lon (F.of_Z 154).

(** ** Values of floats

    A non-negative float is written [V * 2^G] for integers [V] and [G]; the
    operations of the program are then described on integers. *)

(** Number of binary digits *)
Definition digits (n : Z) : Z := Zdigits2 n.

(** Round to nearest, ties to even, dropping the [n] low bits of [M]. *)
Definition rne (M n : Z) : Z :=
  let q := M / 2 ^ n in
  let r := M mod 2 ^ n in
  match 2 * r ?= 2 ^ n with
  | Lt => q
  | Eq => if Z.even q then q else q + 1
  | Gt => q + 1
  end.

(** The canonical float of value [V * 2^G], for [V >= 0] representable. *)
Definition mant (V : Z) : Z := Z.shiftl V (53 - digits V).

Definition fl (G V : Z) : F.float :=
  match V with
  | Zpos _ => S754_finite false (Z.to_pos (mant V)) (G - (53 - digits V))
  | _ => S754_zero false
  end.

(** [M] rounded to 53 significant bits, as an integer on the same grid. *)
Definition rnv (M : Z) : Z :=
  let n := Z.max 0 (digits M - 53) in rne M n * 2 ^ n.

Definition repr (V : Z) : Prop := V mod 2 ^ Z.max 0 (digits V - 53) = 0.

(** Well-formed pair of a grid exponent and a value on that grid. *)
Definition wf (G V : Z) : Prop :=
  -400 <= G <= 100 /\ 0 <= V < 2 ^ 300 /\ repr V.

(** How far the combined code moves in one step east and one step north. *)
Definition east_offset (mc : MeshCode) : Z :=
  if mesh_code3 mc mod 10 =? 9 then
    if mesh_code2 mc mod 10 =? 7 then 9291 else 91
  else 1.

Definition north_offset (mc : MeshCode) : Z :=
  if mesh_code3 mc / 10 =? 9 then
    if mesh_code2 mc / 10 =? 7 then 992910 else 910
  else 10.


(** ** Records of the parameter file *)



(** ** Well-formed record lines *)



(** ** The cell of a point *)

(** [x * 2^k] for a finite float [x] of sign [s], mantissa [m] and
    exponent [e]; it is an integer when [e + k >= 0], as for the latitudes
    of the box with [k = 48] and for its longitudes with [k = 46]. *)
Definition scaled (k : Z) (x : F.float) : Z :=
  match x with
  | S754_finite s m e => cond_Zopp s (Z.shiftl (Zpos m) (e + k))
  | _ => 0
  end.

(** Row and column of a tertiary cell, counted in cells from latitude 0 and
    from longitude 100: the cell covers the latitudes from [row / 120] to
    [(row + 1) / 120] and the longitudes from [100 + column / 80] to
    [100 + (column + 1) / 80]. *)
Definition row (mc : MeshCode) : Z :=
  let '(d1, d2, d3) := lat_digits mc in 80 * d1 + 10 * d2 + d3.

Definition column (mc : MeshCode) : Z :=
  let '(d1, d2, d3) := lon_digits mc in 80 * d1 + 10 * d2 + d3.

(** * Proofs *)

(** ** Neighbour derivation *)

Lemma div_mod_digits (q r b : Z) :
  0 <= r < b -> (q * b + r) / b = q /\ (q * b + r) mod b = r.
Proof.
  intros Hr. split.
  - rewrite Z.div_add_l by lia. rewrite Z.div_small by lia. lia.
  - rewrite Z.add_comm, Z.mod_add by lia. apply Z.mod_small; lia.
Qed.

Lemma tonari_digits mc :
  digits_in_range mc ->
  tonari_mesh_code mc =
    (of_digits (lat_digits mc) (chain_step (lon_digits mc)),
     of_digits (chain_step (lat_digits mc)) (lon_digits mc),
     of_digits (chain_step (lat_digits mc)) (chain_step (lon_digits mc))).
Proof.
  intros [[Ha2 Ho2] [Ha3 Ho3]].
  unfold tonari_mesh_code, of_digits, chain_step, lat_digits, lon_digits.
  set (a1 := mesh_code1 mc / 100) in *. set (o1 := mesh_code1 mc mod 100) in *.
  set (a2 := mesh_code2 mc / 10) in *. set (o2 := mesh_code2 mc mod 10) in *.
  set (a3 := mesh_code3 mc / 10) in *. set (o3 := mesh_code3 mc mod 10) in *.
  destruct (Z.eqb_spec o3 9), (Z.eqb_spec o2 7), (Z.eqb_spec a3 9), (Z.eqb_spec a2 7);
    destruct (Z.ltb_spec 9 (o3 + 1)), (Z.ltb_spec 7 (o2 + 1)),
             (Z.ltb_spec 9 (a3 + 1)), (Z.ltb_spec 7 (a2 + 1));
    simpl; try reflexivity; lia.
Qed.

Lemma chain_step_carry d1 d2 d3 :
  chain_step (d1, d2, d3) =
    (d1 + carry d2 d3, (chain_step (0, d2, d3)).1.2, (chain_step (0, d2, d3)).2).
Proof.
  unfold chain_step, carry.
  destruct (9 <? d3 + 1), (7 <? d2 + 1); simpl; f_equal; f_equal; lia.
Qed.

Lemma chain_step_range d1 d2 d3 :
  0 <= d2 <= 7 -> 0 <= d3 <= 9 ->
  0 <= (chain_step (d1, d2, d3)).1.2 <= 7 /\ 0 <= (chain_step (d1, d2, d3)).2 <= 9.
Proof.
  intros H2 H3. unfold chain_step.
  destruct (Z.ltb_spec 9 (d3 + 1)), (Z.ltb_spec 7 (d2 + 1)); simpl; lia.
Qed.



Lemma of_digits_range (lat lon : Z * Z * Z) :
  0 <= lat.1.2 <= 7 -> 0 <= lat.2 <= 9 ->
  0 <= lon.1.2 <= 7 -> 0 <= lon.2 <= 9 ->
  digits_in_range (of_digits lat lon) /\
  lat_digits (of_digits lat lon)
    = ((lat.1.1 * 100 + lon.1.1) / 100, lat.1.2, lat.2) /\
  lon_digits (of_digits lat lon)
    = ((lat.1.1 * 100 + lon.1.1) mod 100, lon.1.2, lon.2).
Proof.
  destruct lat as [[a1 a2] a3], lon as [[o1 o2] o3]. cbn. intros.
  unfold digits_in_range, lat_digits, lon_digits. cbn.
  destruct (div_mod_digits a2 o2 10) as [-> ->]; [lia|].
  destruct (div_mod_digits a3 o3 10) as [-> ->]; [lia|].
  repeat split; lia.
Qed.

Theorem north_east_commutes (mc : MeshCode) :
  digits_in_range mc ->
  north_east mc = north (east mc) /\ north_east mc = east (north mc).
Proof.
  intros H. pose proof (tonari_digits mc H) as Ht.
  destruct H as [[Ha2 Ho2] [Ha3 Ho3]].
  pose proof (chain_step_range (mesh_code1 mc / 100) _ _ Ha2 Ha3) as [Hr1 Hr2].
  pose proof (chain_step_range (mesh_code1 mc mod 100) _ _ Ho2 Ho3) as [Hr3 Hr4].
  fold (lat_digits mc) in Hr1, Hr2. fold (lon_digits mc) in Hr3, Hr4.
  assert (He : east mc = of_digits (lat_digits mc) (chain_step (lon_digits mc)))
    by (unfold east; rewrite Ht; reflexivity).
  assert (Hn : north mc = of_digits (chain_step (lat_digits mc)) (lon_digits mc))
    by (unfold north; rewrite Ht; reflexivity).
  assert (Hne : north_east mc
                = of_digits (chain_step (lat_digits mc)) (chain_step (lon_digits mc)))
    by (unfold north_east; rewrite Ht; reflexivity).
  destruct (of_digits_range (lat_digits mc) (chain_step (lon_digits mc)))
    as (HRe & Hlat_e & Hlon_e); try assumption.
  destruct (of_digits_range (chain_step (lat_digits mc)) (lon_digits mc))
    as (HRn & Hlat_n & Hlon_n); try assumption.
  rewrite <- He in HRe, Hlat_e, Hlon_e. rewrite <- Hn in HRn, Hlat_n, Hlon_n.
  pose proof (tonari_digits _ HRe) as Hte. pose proof (tonari_digits _ HRn) as Htn.
  split; rewrite Hne.
  - unfold north at 1. rewrite Hte. cbn [fst snd]. rewrite Hlat_e, Hlon_e.
    unfold lat_digits, lon_digits in *.
    rewrite (chain_step_carry (mesh_code1 mc mod 100)). cbn [fst snd].
    set (x := mesh_code1 mc / 100 * 100 + _).
    rewrite (chain_step_carry (mesh_code1 mc / 100)), (chain_step_carry (x / 100)).
    unfold of_digits, MeshCode3. f_equal.
    pose proof (Z.div_mod x 100). subst x. lia.
  - unfold east at 1. rewrite Htn. cbn [fst snd]. rewrite Hlat_n, Hlon_n.
    unfold lat_digits, lon_digits in *.
    rewrite (chain_step_carry (mesh_code1 mc / 100)). cbn [fst snd].
    set (x := _ * 100 + mesh_code1 mc mod 100).
    rewrite (chain_step_carry (mesh_code1 mc mod 100)), (chain_step_carry (x mod 100)).
    unfold of_digits, MeshCode3. f_equal.
    pose proof (Z.div_mod x 100). subst x. lia.
Qed.


Lemma north_east_commutes_witness :
  digits_in_range (MeshCode3 5499 77 99) /\
  north_east (MeshCode3 5499 77 99) = north (east (MeshCode3 5499 77 99)) /\
  north_east (MeshCode3 5499 77 99) = east (north (MeshCode3 5499 77 99)).
Proof.
  assert (H : digits_in_range (MeshCode3 5499 77 99))
    by (repeat split; apply Z.leb_le; reflexivity).
  split; [exact H | exact (north_east_commutes _ H)].
Defined.

(** ** The domain box *)

Theorem bilinear_outside_box (PAR : store) (lat lon : F.float) :
  F.ltb lat (F.of_Z 20) = true \/ F.ltb (F.of_Z 46) lat = true \/
  F.ltb lon (F.of_Z 120) = true \/ F.ltb (F.of_Z 154) lon = true ->
  bilinear_traced PAR lat lon = ([], Return (None, None)) /\
  bilinear PAR lat lon = Return (None, None).
Proof.
  intros H. unfold bilinear, bilinear_traced.
  assert (Hg : F.ltb lat (F.of_Z 20) || F.ltb (F.of_Z 46) lat
               || F.ltb lon (F.of_Z 120) || F.ltb (F.of_Z 154) lon = true).
  { destruct H as [-> | [-> | [-> | ->]]];
      rewrite ?orb_true_r, ?orb_true_l; reflexivity. }
  rewrite Hg. split; reflexivity.
Qed.

Lemma bilinear_outside_box_witness :
  bilinear_traced ∅ (F.of_Z 10) (F.of_Z 130) = ([], Return (None, None)) /\
  bilinear ∅ (F.of_Z 10) (F.of_Z 130) = Return (None, None).
Proof.
  apply (bilinear_outside_box ∅ (F.of_Z 10) (F.of_Z 130)).
  left. vm_compute. reflexivity.
Defined.


(** ** Equality of mesh codes *)

Lemma mesh_code123_not_injective :
  ~ (forall (h : heap) (a b : ref) (x y : MeshCode),
        h !! a = Some x -> h !! b = Some y ->
        (py_eq a b = true <-> mesh_code123 x = mesh_code123 y)) /\
  ~ (forall x y : MeshCode, x = y <-> mesh_code123 x = mesh_code123 y).
Proof.
  split.
  - intros H.
    pose (h := (<[1%positive := MeshCode3 5438 0 0]>
                (<[2%positive := MeshCode3 5438 0 0]> ∅)) : heap).
    specialize (H h 1%positive 2%positive (MeshCode3 5438 0 0) (MeshCode3 5438 0 0)
                  eq_refl eq_refl).
    destruct H as [_ H]. specialize (H eq_refl). discriminate H.
  - intros H.
    destruct (H (MeshCode3 1 0 100) (MeshCode3 1 1 0)) as [_ H'].
    specialize (H' eq_refl). discriminate H'.
Qed.

Theorem mesh_code123_determines_codes (x y : MeshCode) :
  0 <= mesh_code2 x < 100 -> 0 <= mesh_code3 x < 100 ->
  0 <= mesh_code2 y < 100 -> 0 <= mesh_code3 y < 100 ->
  (mesh_code123 x = mesh_code123 y <->
   mesh_code1 x = mesh_code1 y /\ mesh_code2 x = mesh_code2 y /\
   mesh_code3 x = mesh_code3 y) /\
  (forall (h : heap) (a b : ref),
      h !! a = Some x -> h !! b = Some y -> py_eq a b = true ->
      mesh_code123 x = mesh_code123 y).
Proof.
  intros H2 H3 H2' H3'. unfold mesh_code123. split.
  - split; [lia | intros (-> & -> & ->); reflexivity].
  - intros h a b Ha Hb Heq. unfold py_eq in Heq.
    apply bool_decide_eq_true in Heq. subst b. rewrite Ha in Hb.
    injection Hb as ->. reflexivity.
Qed.

Lemma mesh_code123_determines_codes_witness :
  mesh_code123 (MeshCode3 5438 77 99) = mesh_code123 (MeshCode3 5438 77 99) <->
  5438 = 5438 /\ 77 = 77 /\ 99 = 99.
Proof.
  apply (mesh_code123_determines_codes (MeshCode3 5438 77 99) (MeshCode3 5438 77 99));
    cbn; lia.
Defined.

(** ** The parameter file *)

Section Regex.

Variables (p' : list re_item) (g : list string).

Lemma re_run_open s st :
  re_run (ROpen :: p') s st = re_run p' s (cap_open st).
Proof. reflexivity. Qed.

Lemma re_run_close s st :
  re_run (RClose :: p') s st = re_run p' s (cap_close st).
Proof. reflexivity. Qed.

Lemma re_run_char c s st :
  re_run (RChar c :: p') s st = Some g ->
  exists r, s = String c r /\ re_run p' r (cap_take c st) = Some g.
Proof.
  destruct s as [|a r]; simpl; [discriminate|].
  destruct (Ascii.eqb_spec a c) as [->|]; [|discriminate]. eauto.
Qed.

Lemma re_run_opt c s st :
  re_run (ROpt c :: p') s st = Some g ->
  (exists r, s = String c r /\ re_run p' r (cap_take c st) = Some g) \/
  re_run p' s st = Some g.
Proof.
  destruct s as [|a r]; simpl; [auto|].
  destruct (Ascii.eqb_spec a c) as [->|]; [|auto].
  destruct (re_run p' r (cap_take c st)) eqn:E; [|auto].
  intros [= ->]. left. eauto.
Qed.

Lemma re_run_plus cls s st :
  re_run (RPlus cls :: p') s st = Some g ->
  exists c w r, s = String c (w ++ r)%string /\
    cls c = true /\ all_chars cls w = true /\
    re_run p' r (cap_take_all (String c w) st) = Some g.
Proof.
  destruct s as [|a r]; simpl; [discriminate|].
  destruct (cls a) eqn:Ea; [|discriminate].
  intros H.
  enough (exists w r', r = (w ++ r')%string /\ all_chars cls w = true /\
            re_run p' r' (cap_take_all w (cap_take a st)) = Some g)
    as (w & r' & -> & Hw & Hr) by (exists a, w, r'; auto).
  revert H. generalize (cap_take a st). clear st.
  induction r as [|b r IH]; intros st; simpl.
  - intros H. exists EmptyString, EmptyString. auto.
  - destruct (cls b) eqn:Eb.
    + match goal with |- context [match ?X with Some _ => _ | None => _ end] =>
        destruct X eqn:E end.
      * intros [= ->]. destruct (IH _ E) as (w & r' & Hs & Hw & Hr).
        exists (String b w), r'. simpl. rewrite Eb, Hw, Hs. auto.
      * intros H. exists EmptyString, (String b r). auto.
    + intros H. exists EmptyString, (String b r). auto.
Qed.

End Regex.

Lemma append_nil (t : string) : ("" ++ t)%string = t.
Proof. reflexivity. Qed.

Lemma append_cons (a : ascii) (s t : string) :
  (String a s ++ t)%string = String a (s ++ t)%string.
Proof. reflexivity. Qed.

Lemma string_app_nil_r (s : string) : (s ++ "")%string = s.
Proof.
  induction s as [|c s IH]; [reflexivity|]. rewrite append_cons, IH. reflexivity.
Qed.

Lemma string_app_assoc (a b c : string) :
  ((a ++ b) ++ c)%string = (a ++ (b ++ c))%string.
Proof.
  induction a as [|x a IH]; [reflexivity|]. rewrite !append_cons, IH. reflexivity.
Qed.

Lemma cap_take_all_current w cl cur :
  cap_take_all w (mkCaptures cl (Some cur)) = mkCaptures cl (Some (cur ++ w)%string).
Proof.
  revert cur. induction w as [|c w IH]; intros cur; simpl.
  - rewrite string_app_nil_r. reflexivity.
  - unfold cap_take at 1. cbn [current closed]. rewrite IH, string_app_assoc.
    reflexivity.
Qed.

Lemma cap_take_all_none w cl :
  cap_take_all w (mkCaptures cl None) = mkCaptures cl None.
Proof. induction w; simpl; auto. Qed.

Lemma re_decimal_inv p' s cl g :
  re_run (re_decimal ++ p') s (mkCaptures cl None) = Some g ->
  exists d r, decimal_shape d /\ re_run p' r (mkCaptures (cl ++ [d]) None) = Some g.
Proof.
  unfold re_decimal. cbn [app]. rewrite re_run_open. unfold cap_open. cbn [closed].
  intros H. apply re_run_opt in H.
  destruct H as [(r0 & -> & H) | H].
  - unfold cap_take in H. cbn [current closed] in H. rewrite append_nil in H.
    apply re_run_plus in H. destruct H as (a & i & r1 & -> & Ha & Hi & H).
    rewrite cap_take_all_current in H.
    apply re_run_char in H. destruct H as (r2 & -> & H).
    unfold cap_take in H. cbn [current closed] in H.
    apply re_run_plus in H. destruct H as (b & f & r3 & -> & Hb & Hf & H).
    rewrite cap_take_all_current in H. rewrite re_run_close in H.
    unfold cap_close in H. cbn [current closed] in H.
    eexists _, r3. split; [|exact H].
    exists true, a, i, b, f. cbn [all_chars]. rewrite Ha, Hi, Hb, Hf.
    split; [|auto]. rewrite !string_app_assoc. reflexivity.
  - apply re_run_plus in H. destruct H as (a & i & r1 & -> & Ha & Hi & H).
    rewrite cap_take_all_current in H.
    apply re_run_char in H. destruct H as (r2 & -> & H).
    unfold cap_take in H. cbn [current closed] in H.
    apply re_run_plus in H. destruct H as (b & f & r3 & -> & Hb & Hf & H).
    rewrite cap_take_all_current in H. rewrite re_run_close in H.
    unfold cap_close in H. cbn [current closed] in H.
    eexists _, r3. split; [|exact H].
    exists false, a, i, b, f. cbn [all_chars]. rewrite Ha, Hi, Hb, Hf.
    split; [|auto]. rewrite !string_app_assoc. reflexivity.
Qed.

Lemma PAR_RE_groups line m :
  re_match PAR_RE line = Some m ->
  exists c w d1 d2,
    m = [String c w; d1; d2] /\ all_chars is_digit (String c w) = true /\
    decimal_shape d1 /\ decimal_shape d2.
Proof.
  unfold re_match, PAR_RE. cbn [app]. rewrite re_run_open.
  unfold cap_open. cbn [closed]. intros H.
  apply re_run_plus in H. destruct H as (c & w & r1 & -> & Hc & Hw & H).
  rewrite cap_take_all_current, re_run_close in H.
  unfold cap_close in H. cbn [current closed app] in H.
  apply re_run_plus in H. destruct H as (c1 & w1 & r2 & -> & _ & _ & H).
  rewrite cap_take_all_none in H.
  change (re_run (re_decimal ++ RPlus is_space :: re_decimal ++ []) r2
            {| closed := [String c w]; current := None |} = Some m) in H.
  apply re_decimal_inv in H. destruct H as (d1 & r3 & Hd1 & H).
  apply re_run_plus in H. destruct H as (c2 & w2 & r4 & -> & _ & _ & H).
  rewrite cap_take_all_none in H.
  apply re_decimal_inv in H. destruct H as (d2 & r5 & Hd2 & H).
  cbn [re_run closed app] in H. injection H as <-.
  exists c, w, d1, d2. cbn [all_chars]. rewrite Hc, Hw. auto.
Qed.

Lemma all_chars_app cls (s t : string) :
  all_chars cls (s ++ t)%string = all_chars cls s && all_chars cls t.
Proof.
  induction s as [|c s IH]; [reflexivity|].
  rewrite append_cons. cbn [all_chars]. rewrite IH, andb_assoc. reflexivity.
Qed.

Lemma read_digits_all (s : string) (acc : Z) :
  all_chars is_digit s = true -> exists n, read_digits s acc = Some n.
Proof.
  revert acc. induction s as [|c s IH]; intros acc; cbn [all_chars read_digits].
  - eauto.
  - intros [Hc Hs]%andb_prop. rewrite Hc. auto.
Qed.

Lemma py_int_digits (c : ascii) (w : string) :
  all_chars is_digit (String c w) = true ->
  exists n, py_int (String c w) = Return n.
Proof.
  intros H. unfold py_int.
  destruct (read_digits_all _ 0 H) as [n ->]. eauto.
Qed.

Lemma digit_not_dot (c : ascii) : is_digit c = true -> Ascii.eqb c "." = false.
Proof.
  destruct (Ascii.eqb_spec c ".") as [->|]; [discriminate | reflexivity].
Qed.

Lemma digit_not_minus (c : ascii) : is_digit c = true -> Ascii.eqb c "-" = false.
Proof.
  destruct (Ascii.eqb_spec c "-") as [->|]; [discriminate | reflexivity].
Qed.

Lemma split_dot_digits (i f : string) :
  all_chars is_digit i = true ->
  split_dot (i ++ String "." f)%string = Some (i, f).
Proof.
  induction i as [|c i IH]; [reflexivity|].
  cbn [all_chars]. intros [Hc Hi]%andb_prop.
  rewrite append_cons. cbn [split_dot]. rewrite (digit_not_dot _ Hc), (IH Hi).
  reflexivity.
Qed.

Lemma py_float_decimal (d : string) :
  decimal_shape d -> exists x, py_float d = Return x.
Proof.
  intros (sign & a & i & b & f & -> & Hi & Hf).
  assert (Hbody : forall s, s = (String a i ++ "." ++ String b f)%string ->
            exists x,
              match split_dot s with
              | Some (String a i, String b f) =>
                  match read_digits (String a i ++ String b f) 0 with
                  | Some n =>
                      Return (F.of_ratio sign (Z.to_N n)
                                (Z.to_pos (10 ^ Z.of_nat (String.length (String b f)))))
                  | None => Raise ValueError
                  end
              | _ => Raise ValueError
              end = Return x).
  { intros s ->. change ("." ++ String b f)%string with (String "." (String b f)).
    rewrite (split_dot_digits _ _ Hi).
    destruct (read_digits_all (String a i ++ String b f) 0) as [n ->]; [|eauto].
    rewrite all_chars_app, Hi, Hf. reflexivity. }
  unfold py_float. destruct sign.
  - change ("-" ++ String a i ++ "." ++ String b f)%string
      with (String "-" (String a i ++ "." ++ String b f)).
    cbn [Ascii.eqb]. change (Ascii.eqb "-" "-") with true. cbv iota.
    apply Hbody. reflexivity.
  - rewrite append_nil, append_cons.
    assert (Ha : is_digit a = true) by (cbn [all_chars] in Hi; apply andb_prop in Hi; tauto).
    rewrite (digit_not_minus _ Ha). rewrite <- append_cons.
    apply Hbody. reflexivity.
Qed.

Lemma load_line_total (PAR : store) (line : string) :
  match re_match PAR_RE line with
  | None => load_line PAR line = Return PAR
  | Some m =>
      exists code dB dL,
        py_int (group m 1) = Return code /\
        py_float (group m 2) = Return dB /\
        py_float (group m 3) = Return dL /\
        load_line PAR line = Return (<[code := (dB, dL)]> PAR)
  end.
Proof.
  unfold load_line. destruct (re_match PAR_RE line) as [m|] eqn:E; [|reflexivity].
  destruct (PAR_RE_groups _ _ E) as (c & w & d1 & d2 & -> & Hw & Hd1 & Hd2).
  destruct (py_int_digits _ _ Hw) as [code Hcode].
  destruct (py_float_decimal _ Hd1) as [dB HdB].
  destruct (py_float_decimal _ Hd2) as [dL HdL].
  exists code, dB, dL. cbn [group nth Nat.sub].
  rewrite Hcode, HdB, HdL. auto.
Qed.

Lemma load_lines_total (lines : list string) (PAR : store) :
  exists PAR', load_lines PAR lines = Return PAR'.
Proof.
  revert PAR. induction lines as [|line rest IH]; intros PAR; cbn [load_lines].
  - eauto.
  - pose proof (load_line_total PAR line) as H.
    destruct (re_match PAR_RE line).
    + destruct H as (code & dB & dL & _ & _ & _ & ->). apply IH.
    + rewrite H. apply IH.
Qed.






(** ** Conversion facade *)


(** ** Carry normalisation *)

Ltac bind_inv H :=
  repeat match type of H with
  | context [mbind _ ?m] =>
      let E := fresh "E" in
      destruct m eqn:E; cbn [mbind result_bind rbind] in H; [|discriminate H]
  end.

Lemma lat_lon2mesh_code_factor (lat lon : F.float) (a o : Z * Z * Z) :
  spec_lat_digits lat = Return a ->
  spec_lon_digits lon = Return o ->
  lat_lon2mesh_code lat lon
  = mesh_code_of_digits lat lon (carry_normalize a) (carry_normalize o).
Proof.
  intros Ha Ho. unfold spec_lat_digits in Ha. unfold spec_lon_digits in Ho.
  bind_inv Ha. bind_inv Ho.
  injection Ha as <-. injection Ho as <-.
  unfold lat_lon2mesh_code.
  repeat (match goal with
          | H : ?m = Return _ |- context [mbind _ ?m] => rewrite H
          end; cbn [mbind result_bind rbind]).
  unfold carry_normalize, mesh_code_of_digits.
  repeat match goal with
         | |- context [Z.eqb ?x ?y] => destruct (Z.eqb x y)
         end; reflexivity.
Qed.

(** ** Rounding in the normal range *)

Lemma digits2_pos_size (p : positive) : digits2_pos p = Pos.size p.
Proof. induction p; simpl; congruence. Qed.

Lemma digits_pos_bounds (p : positive) :
  2 ^ (digits (Zpos p) - 1) <= Zpos p < 2 ^ digits (Zpos p).
Proof.
  unfold digits, Zdigits2. rewrite digits2_pos_size.
  induction p as [p IH | p IH |]; cbn [Pos.size].
  - rewrite Pos2Z.inj_succ, Z.pow_succ_r by lia.
    replace (Z.succ (Zpos (Pos.size p)) - 1) with (Z.succ (Zpos (Pos.size p) - 1)) by lia.
    rewrite Z.pow_succ_r by lia. lia.
  - rewrite Pos2Z.inj_succ, Z.pow_succ_r by lia.
    replace (Z.succ (Zpos (Pos.size p)) - 1) with (Z.succ (Zpos (Pos.size p) - 1)) by lia.
    rewrite Z.pow_succ_r by lia. lia.
  - cbn. lia.
Qed.

Lemma digits_bounds (M : Z) :
  0 < M -> 1 <= digits M /\ 2 ^ (digits M - 1) <= M < 2 ^ digits M.
Proof.
  destruct M as [|p|p]; try lia. intros _.
  split; [unfold digits, Zdigits2; lia | apply digits_pos_bounds].
Qed.

Lemma digits_unique (M d : Z) :
  2 ^ (d - 1) <= M < 2 ^ d -> 0 < M -> digits M = d.
Proof.
  intros [Hlo Hhi] HM. destruct (digits_bounds M HM) as (H1 & Hl & Hh).
  assert (0 < d). { destruct (Z.ltb_spec 0 d); [lia|]. 
    assert (2 ^ d <= 1). { destruct (Z.eq_dec d 0) as [->|]; [simpl;lia|]. rewrite Z.pow_neg_r by lia. lia. } lia. }
  destruct (Z.lt_trichotomy (digits M) d) as [Hlt | [Heq | Hgt]]; [|exact Heq|].
  - assert (2 ^ digits M <= 2 ^ (d - 1)) by (apply Z.pow_le_mono_r; lia). lia.
  - assert (2 ^ d <= 2 ^ (digits M - 1)) by (apply Z.pow_le_mono_r; lia). lia.
Qed.

Lemma digits_mul_pow2 (M k : Z) :
  0 < M -> 0 <= k -> digits (M * 2 ^ k) = digits M + k.
Proof.
  intros HM Hk. destruct (digits_bounds M HM) as (H1 & Hl & Hh).
  apply digits_unique; [|nia].
  replace (digits M + k - 1) with (digits M - 1 + k) by lia.
  rewrite !Z.pow_add_r by lia.
  assert (0 < 2 ^ k) by (apply Z.pow_pos_nonneg; lia). nia.
Qed.

Lemma digits_le (M d : Z) : 0 < M -> M < 2 ^ d -> 0 <= d -> digits M <= d.
Proof.
  intros HM Hlt Hd. destruct (digits_bounds M HM) as (H1 & Hl & Hh).
  destruct (Z.le_gt_cases (digits M) d) as [|Hgt]; [assumption|].
  assert (2 ^ d <= 2 ^ (digits M - 1)) by (apply Z.pow_le_mono_r; lia). lia.
Qed.

Lemma digits_ge (M d : Z) : 2 ^ (d - 1) <= M -> 0 < M -> d <= digits M.
Proof.
  intros Hge HM. destruct (digits_bounds M HM) as (H1 & Hl & Hh).
  destruct (Z.le_gt_cases d (digits M)) as [|Hgt]; [assumption|].
  assert (2 ^ digits M <= 2 ^ (d - 1)) by (apply Z.pow_le_mono_r; lia). lia.
Qed.

(** iter_pos *)
Lemma iter_pos_nat {A} (f : A -> A) (p : positive) (x : A) :
  SpecFloat.iter_pos f p x = Nat.iter (Pos.to_nat p) f x.
Proof.
  revert x. induction p as [p IH | p IH |]; intros x; cbn [SpecFloat.iter_pos].
  - rewrite !IH. replace (Pos.to_nat p~1) with (Pos.to_nat p + S (Pos.to_nat p))%nat by lia.
    rewrite Nat.iter_add, Nat.iter_succ_r. reflexivity.
  - rewrite !IH. replace (Pos.to_nat p~0) with (Pos.to_nat p + Pos.to_nat p)%nat by lia.
    rewrite Nat.iter_add. reflexivity.
  - reflexivity.
Qed.

Lemma shr_1_nonneg (m : Z) (r s : bool) :
  0 <= m ->
  shr_1 (Build_shr_record m r s) = Build_shr_record (m / 2) (Z.odd m) (r || s).
Proof.
  intros Hm. destruct m as [|p|p]; [reflexivity| |lia].
  destruct p as [p|p|]; cbn [shr_1].
  - f_equal. rewrite Pos2Z.inj_xI. 
    replace (2 * Z.pos p + 1) with (1 + Z.pos p * 2) by lia.
    rewrite Z.div_add by lia. reflexivity.
  - f_equal. rewrite Pos2Z.inj_xO. rewrite Z.mul_comm, Z.div_mul by lia. reflexivity.
  - reflexivity.
Qed.

Lemma iter_shr_1 (M : Z) (n : nat) :
  0 <= M ->
  Nat.iter (S n) shr_1 (Build_shr_record M false false)
  = Build_shr_record (M / 2 ^ Z.of_nat (S n))
                     (Z.odd (M / 2 ^ Z.of_nat n))
                     (negb (M mod 2 ^ Z.of_nat n =? 0)).
Proof.
  intros HM. induction n as [|n IH].
  - cbn [Nat.iter]. rewrite shr_1_nonneg by assumption. cbn.
    rewrite Z.div_1_r, Z.mod_1_r. reflexivity.
  - rewrite Nat.iter_succ, IH.
    assert (Hp : 0 < 2 ^ Z.of_nat n) by (apply Z.pow_pos_nonneg; lia).
    assert (Hp' : 0 < 2 ^ Z.of_nat (S n)) by (apply Z.pow_pos_nonneg; lia).
    rewrite shr_1_nonneg by (apply Z.div_pos; lia).
    f_equal.
    + rewrite Z.div_div by lia. f_equal.
      rewrite (Nat2Z.inj_succ (S n)), Z.pow_succ_r by lia. lia.
    + (* sticky *)
      rewrite (Nat2Z.inj_succ n), Z.pow_succ_r by lia.
      pose proof (Z.div_mod M (2 ^ Z.of_nat n) ltac:(lia)) as HD.
      pose proof (Z.mod_pos_bound M (2 ^ Z.of_nat n) Hp) as HB.
      set (q := M / 2 ^ Z.of_nat n) in *. set (r := M mod 2 ^ Z.of_nat n) in *.
      pose proof (Z.div_mod q 2 ltac:(lia)) as HQ.
      pose proof (Z.mod_pos_bound q 2 ltac:(lia)) as HQB.
      assert (Hm : M mod (2 * 2 ^ Z.of_nat n) = (q mod 2) * 2 ^ Z.of_nat n + r).
      { symmetry. apply (Z.mod_unique_pos _ _ (q / 2)); nia. }
      rewrite Hm. rewrite <- Z.bit0_odd, Z.bit0_eqb.
      destruct (Z.eqb_spec (q mod 2) 1) as [H1|H1];
        destruct (Z.eqb_spec r 0) as [H0|H0];
        destruct (Z.eqb_spec (q mod 2 * 2 ^ Z.of_nat n + r) 0) as [H2|H2];
        cbn; try reflexivity; exfalso; nia.
Qed.

Lemma odd_mod2 (q : Z) : Z.odd q = (q mod 2 =? 1).
Proof. rewrite <- Z.bit0_odd, Z.bit0_eqb. reflexivity. Qed.

Lemma shr_spec (M E n : Z) :
  0 <= M -> 0 < n ->
  let '(mrs, e) := shr (Build_shr_record M false false) E n in
  e = E + n /\ shr_m mrs = M / 2 ^ n /\
  round_nearest_even (shr_m mrs) (loc_of_shr_record mrs) = rne M n.
Proof.
  intros HM Hn. destruct n as [|p|p]; try lia. cbn [shr].
  rewrite iter_pos_nat.
  destruct (Pos2Nat.is_succ p) as [k Hk]. rewrite Hk, iter_shr_1 by assumption.
  assert (HSk : Z.of_nat (S k) = Zpos p) by lia.
  rewrite HSk. cbn [shr_m]. split; [reflexivity|]. split; [reflexivity|].
  unfold rne.
  assert (Hk' : Zpos p = Z.of_nat k + 1) by lia.
  assert (Hp : 0 < 2 ^ Z.of_nat k) by (apply Z.pow_pos_nonneg; lia).
  assert (Hpp : 2 ^ Zpos p = 2 * 2 ^ Z.of_nat k)
    by (rewrite Hk', Z.pow_add_r by lia; change (2 ^ 1) with 2; lia).
  pose proof (Z.div_mod M (2 ^ Z.of_nat k) ltac:(lia)) as HD.
  pose proof (Z.mod_pos_bound M (2 ^ Z.of_nat k) Hp) as HB.
  set (q := M / 2 ^ Z.of_nat k) in *. set (r := M mod 2 ^ Z.of_nat k) in *.
  pose proof (Z.div_mod q 2 ltac:(lia)) as HQ.
  pose proof (Z.mod_pos_bound q 2 ltac:(lia)) as HQB.
  assert (Hm : M mod 2 ^ Zpos p = (q mod 2) * 2 ^ Z.of_nat k + r).
  { rewrite Hpp. symmetry. apply (Z.mod_unique_pos _ _ (q / 2)); nia. }
  rewrite Hm, odd_mod2, Hpp.
  destruct (Z.eqb_spec (q mod 2) 1) as [H1|H1];
    destruct (Z.eqb_spec r 0) as [H0|H0]; cbn [negb loc_of_shr_record round_nearest_even].
  - rewrite H1, H0. replace (2 * (1 * 2 ^ Z.of_nat k + 0) ?= 2 * 2 ^ Z.of_nat k) with Eq
      by (symmetry; apply Z.compare_eq_iff; lia). reflexivity.
  - replace (2 * (q mod 2 * 2 ^ Z.of_nat k + r) ?= 2 * 2 ^ Z.of_nat k) with Gt
      by (symmetry; apply Z.compare_gt_iff; nia). reflexivity.
  - replace (2 * (q mod 2 * 2 ^ Z.of_nat k + r) ?= 2 * 2 ^ Z.of_nat k) with Lt
      by (symmetry; apply Z.compare_lt_iff; nia). reflexivity.
  - replace (2 * (q mod 2 * 2 ^ Z.of_nat k + r) ?= 2 * 2 ^ Z.of_nat k) with Lt
      by (symmetry; apply Z.compare_lt_iff; nia). reflexivity.
Qed.

Lemma rne_bounds (M n : Z) :
  0 <= M -> 0 <= n -> M / 2 ^ n <= rne M n <= M / 2 ^ n + 1.
Proof.
  intros HM Hn. unfold rne.
  destruct (2 * (M mod 2 ^ n) ?= 2 ^ n); [destruct (Z.even _)| |]; lia.
Qed.

Lemma rne_exact (M n : Z) :
  0 <= n -> M mod 2 ^ n = 0 -> rne M n = M / 2 ^ n.
Proof.
  intros Hn H0. unfold rne. rewrite H0.
  assert (0 < 2 ^ n) by (apply Z.pow_pos_nonneg; lia).
  replace (2 * 0 ?= 2 ^ n) with Lt by (symmetry; apply Z.compare_lt_iff; lia).
  reflexivity.
Qed.

Lemma div_pow2_bounds (M d n : Z) :
  0 <= n -> n < d -> 2 ^ (d - 1) <= M < 2 ^ d ->
  2 ^ (d - 1 - n) <= M / 2 ^ n < 2 ^ (d - n).
Proof.
  intros Hn Hd [Hlo Hhi].
  assert (Hp : 0 < 2 ^ n) by (apply Z.pow_pos_nonneg; lia).
  replace (d - 1) with ((d - 1 - n) + n) in Hlo by lia.
  replace d with ((d - n) + n) in Hhi at 1 by lia.
  rewrite Z.pow_add_r in Hlo, Hhi by lia.
  split.
  - apply Z.div_le_lower_bound; lia.
  - apply Z.div_lt_upper_bound; lia.
Qed.

Lemma fexp_normal (x : Z) : -1021 <= x -> fexp 53 1024 x = x - 53.
Proof. intros H. unfold fexp, emin. lia. Qed.

Lemma binary_round_aux_spec (M E : Z) :
  0 < M -> 53 < digits M -> -1000 <= E -> E + digits M <= 1000 ->
  binary_round_aux 53 1024 false M E loc_Exact = fl E (rnv M).
Proof.
  intros HM Hd HE HEd.
  destruct (digits_bounds M HM) as (_ & Hlo & Hhi).
  set (d := digits M) in *. set (n := d - 53).
  assert (Hn : 0 < n) by lia.
  unfold binary_round_aux, shr_fexp. fold (digits M). fold d.
  rewrite fexp_normal by lia. replace (d + E - 53 - E) with n by lia.
  cbn [shr_record_of_loc].
  pose proof (shr_spec M E n ltac:(lia) Hn) as Hs.
  destruct (shr {| shr_m := M; shr_r := false; shr_s := false |} E n) as [mrs e].
  destruct Hs as (-> & Hm & ->).
  pose proof (rne_bounds M n ltac:(lia) ltac:(lia)) as Hr.
  pose proof (div_pow2_bounds M d n ltac:(lia) ltac:(lia) (conj Hlo Hhi)) as Hq.
  replace (d - 1 - n) with 52 in Hq by lia. replace (d - n) with 53 in Hq by lia.
  set (m2 := rne M n) in *.
  assert (Hp : 0 < 2 ^ n) by (apply Z.pow_pos_nonneg; lia).
  assert (Hrnv : rnv M = m2 * 2 ^ n).
  { unfold rnv. fold d. replace (Z.max 0 (d - 53)) with n by lia. reflexivity. }
  assert (Hm2 : 0 < m2) by lia.
  assert (Hpos : 0 < m2 * 2 ^ n) by nia.
  destruct (Z.eq_dec m2 (2 ^ 53)) as [Heq | Hne].
  - (* the mantissa overflowed to 2^53 *)
    assert (Hd2 : digits m2 = 54) by (rewrite Heq; reflexivity).
    fold (digits m2). rewrite Hd2, fexp_normal by lia.
    replace (54 + (E + n) - 53 - (E + n)) with 1 by lia.
    rewrite Heq. cbn [shr SpecFloat.iter_pos shr_1 shr_m].
    assert ((E + n + 1 <=? 1024 - 53) = true) as -> by (apply Z.leb_le; lia).
    rewrite Hrnv, Heq. unfold fl.
    destruct (2 ^ 53 * 2 ^ n) as [|p|p] eqn:Ep; try lia.
    rewrite <- Ep. unfold mant.
    rewrite digits_mul_pow2 by lia. change (digits (2 ^ 53)) with 54.
    f_equal; [|lia].
    replace (53 - (54 + n)) with (- (n + 1)) by lia.
    rewrite Z.shiftl_opp_r, Z.shiftr_div_pow2 by lia.
    rewrite Z.pow_add_r by lia. change (2 ^ 1) with 2.
    replace (2 ^ 53 * 2 ^ n) with (2 ^ 52 * (2 ^ n * 2)) by (change (2 ^ 53) with (2 ^ 52 * 2); lia).
    rewrite Z.div_mul by lia. reflexivity.
  - assert (Hd2 : digits m2 = 53) by (apply digits_unique; lia).
    fold (digits m2). rewrite Hd2, fexp_normal by lia.
    replace (53 + (E + n) - 53 - (E + n)) with 0 by lia.
    cbn [shr shr_m].
    destruct m2 as [|p|p] eqn:Em2; try lia.
    assert ((E + n <=? 1024 - 53) = true) as -> by (apply Z.leb_le; lia).
    rewrite Hrnv. unfold fl.
    destruct (Z.pos p * 2 ^ n) as [|p'|p'] eqn:Ep; try lia.
    rewrite <- Ep. unfold mant.
    rewrite digits_mul_pow2, Hd2 by lia.
    f_equal; [|lia].
    replace (53 - (53 + n)) with (- n) by lia.
    rewrite Z.shiftl_opp_r, Z.shiftr_div_pow2 by lia.
    rewrite Z.div_mul by lia. reflexivity.
Qed.

Lemma rnv_small (M : Z) : digits M <= 53 -> rnv M = M.
Proof.
  intros Hd. unfold rnv. replace (Z.max 0 (digits M - 53)) with 0 by lia.
  rewrite rne_exact by (try lia; change (2 ^ 0) with 1; apply Z.mod_1_r).
  change (2 ^ 0) with 1. rewrite Z.div_1_r. lia.
Qed.

Lemma binary_round_aux_53 (m e : Z) :
  0 < m -> digits m = 53 -> -1074 <= e <= 900 ->
  binary_round_aux 53 1024 false m e loc_Exact = S754_finite false (Z.to_pos m) e.
Proof.
  intros Hm Hd He. unfold binary_round_aux, shr_fexp. fold (digits m).
  rewrite Hd, fexp_normal by lia. replace (53 + e - 53 - e) with 0 by lia.
  cbn [shr shr_record_of_loc shr_m loc_of_shr_record round_nearest_even].
  fold (digits m). rewrite Hd, fexp_normal by lia.
  replace (53 + e - 53 - e) with 0 by lia. cbn [shr shr_m].
  destruct m as [|p|p]; try lia.
  assert ((e <=? 1024 - 53) = true) as -> by (apply Z.leb_le; lia).
  reflexivity.
Qed.

Lemma pos_iter_xO (m d : positive) :
  Zpos (Pos.iter xO m d) = Zpos m * 2 ^ Zpos d.
Proof.
  induction d as [|d IH] using Pos.peano_ind.
  - cbn. lia.
  - rewrite Pos.iter_succ, Pos2Z.inj_xO, IH, Pos2Z.inj_succ, Z.pow_succ_r by lia. lia.
Qed.

Lemma binary_round_spec (M E : Z) :
  0 < M -> -1000 <= E -> E + digits M <= 900 ->
  binary_round 53 1024 false (Z.to_pos M) E = fl E (rnv M).
Proof.
  intros HM HE HEd.
  destruct (digits_bounds M HM) as (Hd1 & Hlo & Hhi).
  destruct M as [|p|p]; try lia. cbn [Z.to_pos].
  unfold binary_round.
  change (Zpos (digits2_pos p)) with (digits (Zpos p)).
  set (d := digits (Zpos p)) in *.
  rewrite fexp_normal by lia. unfold shl_align.
  destruct (d + E - 53 - E) as [|q|q] eqn:Eq.
  - (* exactly 53 digits *)
    rewrite binary_round_aux_53 by lia.
    rewrite rnv_small by (fold d; lia). unfold fl, mant. fold d.
    replace (53 - d) with 0 by lia. rewrite Z.shiftl_0_r. f_equal. lia.
  - apply binary_round_aux_spec; fold d; lia.
  - assert (Hq : Zpos q = 53 - d) by lia.
    rewrite binary_round_aux_53.
    + rewrite rnv_small by (fold d; lia). unfold fl, mant. fold d.
      rewrite Z.shiftl_mul_pow2 by lia. rewrite pos_iter_xO, Hq.
      f_equal. lia.
    + lia.
    + rewrite pos_iter_xO, Hq. rewrite digits_mul_pow2 by lia. fold d. lia.
    + lia.
Qed.

Lemma repr_small (V : Z) : digits V <= 53 -> repr V.
Proof.
  intros H. unfold repr. replace (Z.max 0 (digits V - 53)) with 0 by lia.
  apply Z.mod_1_r.
Qed.

Lemma rnv_exact (V : Z) : repr V -> rnv V = V.
Proof.
  unfold repr, rnv. intros H. set (n := Z.max 0 (digits V - 53)) in *.
  rewrite rne_exact by lia.
  assert (0 < 2 ^ n) by (apply Z.pow_pos_nonneg; lia).
  pose proof (Z.div_mod V (2 ^ n) ltac:(lia)). lia.
Qed.

Lemma fl_regrid (G V k : Z) :
  0 <= V -> 0 <= k -> fl (G - k) (V * 2 ^ k) = fl G V.
Proof.
  intros HV Hk. destruct (Z.eq_dec V 0) as [->|HV0]; [reflexivity|].
  assert (Hp : 0 < 2 ^ k) by (apply Z.pow_pos_nonneg; lia).
  unfold fl. destruct V as [|p|p]; try lia.
  destruct (Zpos p * 2 ^ k) as [|p'|p'] eqn:Ep; try lia.
  rewrite <- Ep. unfold mant. rewrite digits_mul_pow2 by lia.
  rewrite <- Z.shiftl_mul_pow2 by lia. rewrite Z.shiftl_shiftl by lia.
  f_equal; [f_equal; f_equal; lia | lia].
Qed.

Lemma rne_scale (M n k : Z) :
  0 <= n -> 0 <= k -> rne (M * 2 ^ k) (n + k) = rne M n.
Proof.
  intros Hn Hk. unfold rne.
  assert (Hpk : 0 < 2 ^ k) by (apply Z.pow_pos_nonneg; lia).
  assert (Hpn : 0 < 2 ^ n) by (apply Z.pow_pos_nonneg; lia).
  rewrite Z.pow_add_r by lia.
  rewrite Z.div_mul_cancel_r by lia.
  rewrite Z.mul_mod_distr_r by lia.
  replace (2 * (M mod 2 ^ n * 2 ^ k)) with (2 * (M mod 2 ^ n) * 2 ^ k) by lia.
  destruct (Z.compare_spec (2 * (M mod 2 ^ n) * 2 ^ k) (2 ^ n * 2 ^ k));
    destruct (Z.compare_spec (2 * (M mod 2 ^ n)) (2 ^ n)); try reflexivity; nia.
Qed.

Lemma rnv_scale (M k : Z) : 0 < M -> 0 <= k -> rnv (M * 2 ^ k) = rnv M * 2 ^ k.
Proof.
  intros HM Hk. unfold rnv. rewrite digits_mul_pow2 by lia.
  destruct (digits_bounds M HM) as (Hd1 & _).
  assert (Hpk : 0 < 2 ^ k) by (apply Z.pow_pos_nonneg; lia).
  destruct (Z.le_gt_cases (digits M) 53) as [Hle | Hgt].
  - replace (Z.max 0 (digits M - 53)) with 0 by lia.
    set (n := Z.max 0 (digits M + k - 53)).
    assert (Hn : 0 <= n <= k) by lia.
    assert (Hdiv : M * 2 ^ k = (M * 2 ^ (k - n)) * 2 ^ n).
    { rewrite <- Z.mul_assoc, <- Z.pow_add_r by lia. do 2 f_equal. lia. }
    rewrite rne_exact; [|lia|rewrite Hdiv; apply Z.mod_mul; apply Z.pow_nonzero; lia].
    rewrite (rne_exact M 0) by (try lia; apply Z.mod_1_r).
    change (2 ^ 0) with 1. rewrite Z.div_1_r, Z.mul_1_r.
    rewrite Hdiv at 1. rewrite Z.div_mul by (apply Z.pow_nonzero; lia). lia.
  - replace (Z.max 0 (digits M + k - 53)) with (Z.max 0 (digits M - 53) + k) by lia.
    rewrite rne_scale by lia. rewrite Z.pow_add_r by lia. lia.
Qed.

Lemma fl_rnv_equiv (M M' E E' a b : Z) :
  0 < M -> 0 < M' -> 0 <= a -> 0 <= b ->
  M * 2 ^ a = M' * 2 ^ b -> E - a = E' - b ->
  fl E (rnv M) = fl E' (rnv M').
Proof.
  intros HM HM' Ha Hb Hv He.
  assert (H0 : forall X, 0 < X -> 0 <= rnv X).
  { intros X HX. unfold rnv.
    pose proof (rne_bounds X (Z.max 0 (digits X - 53)) ltac:(lia) ltac:(lia)).
    assert (0 <= X / 2 ^ Z.max 0 (digits X - 53)) by (apply Z.div_pos; [lia|apply Z.pow_pos_nonneg; lia]).
    assert (0 < 2 ^ Z.max 0 (digits X - 53)) by (apply Z.pow_pos_nonneg; lia). nia. }
  rewrite <- (fl_regrid E (rnv M) a) by auto.
  rewrite <- (fl_regrid E' (rnv M') b) by auto.
  rewrite <- !rnv_scale by lia. rewrite Hv, He. reflexivity.
Qed.

(** The mantissa and exponent of [fl G V]. *)
Lemma fl_decomp (G V : Z) :
  0 < V -> repr V ->
  exists m e c,
    fl G V = S754_finite false (Z.to_pos m) e /\ 0 < m /\ digits m = 53 /\ 0 <= c /\
    ((m = V * 2 ^ c /\ e = G - c) \/ (V = m * 2 ^ c /\ e = G + c)).
Proof.
  intros HV Hr. destruct (digits_bounds V HV) as (Hd1 & Hlo & Hhi).
  unfold fl. destruct V as [|p|p] eqn:EV; try lia. rewrite <- EV in *.
  clear EV p. unfold mant.
  destruct (Z.le_gt_cases (digits V) 53) as [Hle | Hgt].
  - exists (V * 2 ^ (53 - digits V)), (G - (53 - digits V)), (53 - digits V).
    rewrite Z.shiftl_mul_pow2 by lia.
    assert (0 < 2 ^ (53 - digits V)) by (apply Z.pow_pos_nonneg; lia).
    split; [reflexivity|]. split; [nia|].
    split; [rewrite digits_mul_pow2 by lia; lia|]. split; [lia|]. left; lia.
  - unfold repr in Hr. replace (Z.max 0 (digits V - 53)) with (digits V - 53) in Hr by lia.
    set (c := digits V - 53) in *.
    assert (Hp : 0 < 2 ^ c) by (apply Z.pow_pos_nonneg; lia).
    pose proof (Z.div_mod V (2 ^ c) ltac:(lia)) as HD. rewrite Hr, Z.add_0_r in HD.
    exists (V / 2 ^ c), (G + c), c.
    replace (53 - digits V) with (- c) by lia.
    rewrite Z.shiftl_opp_r, Z.shiftr_div_pow2 by lia.
    assert (Hq : 0 < V / 2 ^ c) by nia.
    split; [f_equal; lia|]. split; [lia|]. split; [|split; [lia | right; lia]].
    pose proof (digits_mul_pow2 (V / 2 ^ c) c Hq ltac:(lia)) as Hdm.
    replace (V / 2 ^ c * 2 ^ c) with V in Hdm by lia. lia.
Qed.

Lemma rnv_0 : rnv 0 = 0.
Proof. reflexivity. Qed.

Lemma digits_lt_pow (V k : Z) : 0 <= V < 2 ^ k -> 0 <= k -> digits V <= k.
Proof.
  intros [H0 Hlt] Hk. destruct (Z.eq_dec V 0) as [->|]; [cbn; lia|].
  apply digits_le; lia.
Qed.

Lemma fl_exponent_range (G V m e c : Z) :
  wf G V -> 0 < V -> digits m = 53 -> 0 <= c ->
  (m = V * 2 ^ c /\ e = G - c) \/ (V = m * 2 ^ c /\ e = G + c) ->
  -453 <= e <= 400.
Proof.
  intros (HG & HV & _) HV0 Hm Hc Hcase.
  pose proof (digits_lt_pow V 300 HV ltac:(lia)) as HdV.
  destruct (digits_bounds V HV0) as (Hd1 & _).
  destruct Hcase as [[-> ->] | [-> ->]].
  - rewrite digits_mul_pow2 in Hm by lia. lia.
  - assert (0 < m). { destruct (Z.lt_trichotomy m 0) as [|[->|]]; [|cbn in Hm; lia|lia].
      destruct m; cbn in Hm; lia. }
    rewrite digits_mul_pow2 in HdV by lia. lia.
Qed.

Lemma fl_cases (G V : Z) :
  fl G V = S754_zero false \/ exists m e, fl G V = S754_finite false m e.
Proof. unfold fl. destruct V; eauto. Qed.

Lemma mul_fl (G1 V1 G2 V2 : Z) :
  wf G1 V1 -> wf G2 V2 ->
  F.mul (fl G1 V1) (fl G2 V2) = fl (G1 + G2) (rnv (V1 * V2)).
Proof.
  intros W1 W2.
  destruct (Z.eq_dec V1 0) as [->|H1].
  { rewrite Z.mul_0_l, rnv_0. cbn [fl].
    destruct (fl_cases G2 V2) as [-> | (m & e & ->)]; reflexivity. }
  destruct (Z.eq_dec V2 0) as [->|H2].
  { rewrite Z.mul_0_r, rnv_0. cbn [fl].
    destruct (fl_cases G1 V1) as [-> | (m & e & ->)]; reflexivity. }
  assert (HV1 : 0 < V1) by (destruct W1 as (_ & ? & _); lia).
  assert (HV2 : 0 < V2) by (destruct W2 as (_ & ? & _); lia).
  destruct (fl_decomp G1 V1 HV1 ltac:(apply W1)) as (m1 & e1 & c1 & -> & Hm1 & Hd1 & Hc1 & HC1).
  destruct (fl_decomp G2 V2 HV2 ltac:(apply W2)) as (m2 & e2 & c2 & -> & Hm2 & Hd2 & Hc2 & HC2).
  pose proof (fl_exponent_range _ _ _ _ _ W1 HV1 Hd1 Hc1 HC1) as He1.
  pose proof (fl_exponent_range _ _ _ _ _ W2 HV2 Hd2 Hc2 HC2) as He2.
  unfold F.mul, SFmul. cbn [xorb].
  rewrite Pos2Z.inj_mul, !Z2Pos.id by lia.
  destruct (digits_bounds m1 Hm1) as (_ & Hl1 & Hh1).
  destruct (digits_bounds m2 Hm2) as (_ & Hl2 & Hh2).
  rewrite Hd1 in Hl1, Hh1. rewrite Hd2 in Hl2, Hh2.
  assert (Hdp : 105 <= digits (m1 * m2) <= 106).
  { split.
    - apply digits_ge; [|nia].
      change (2 ^ (105 - 1)) with (2 ^ (53 - 1) * 2 ^ (53 - 1)). nia.
    - apply digits_le; [nia| |lia].
      change (2 ^ 106) with (2 ^ 53 * 2 ^ 53). nia. }
  rewrite binary_round_aux_spec by (try nia; lia).
  assert (Hp1 : 0 < 2 ^ c1) by (apply Z.pow_pos_nonneg; lia).
  assert (Hp2 : 0 < 2 ^ c2) by (apply Z.pow_pos_nonneg; lia).
  destruct HC1 as [[E1 ->] | [E1 ->]], HC2 as [[E2 ->] | [E2 ->]].
  - apply (fl_rnv_equiv _ _ _ _ 0 (c1 + c2)); try lia; try nia;
      rewrite E1, E2, Z.pow_add_r by lia; change (2 ^ 0) with 1; lia.
  - apply (fl_rnv_equiv _ _ _ _ c2 c1); try lia; try nia; rewrite E1, E2; lia.
  - apply (fl_rnv_equiv _ _ _ _ c1 c2); try lia; try nia; rewrite E1, E2; lia.
  - apply (fl_rnv_equiv _ _ _ _ (c1 + c2) 0); try lia; try nia;
      rewrite E1, E2, Z.pow_add_r by lia; change (2 ^ 0) with 1; lia.
Qed.

Lemma fl_decomp_ab (G V : Z) :
  0 < V -> repr V ->
  exists m e a b,
    fl G V = S754_finite false (Z.to_pos m) e /\ 0 < m /\ digits m = 53 /\
    0 <= a /\ 0 <= b /\ m * 2 ^ a = V * 2 ^ b /\ e - a = G - b /\
    (wf G V -> -453 <= e <= 400).
Proof.
  intros HV Hr.
  destruct (fl_decomp G V HV Hr) as (m & e & c & Hfl & Hm & Hd & Hc & HC).
  assert (Hrange : wf G V -> -453 <= e <= 400)
    by (intros W; eapply fl_exponent_range; eauto).
  destruct HC as [[E1 E2] | [E1 E2]].
  - exists m, e, 0, c. change (2 ^ 0) with 1.
    split; [exact Hfl|]. repeat (split; [lia|]). exact Hrange.
  - exists m, e, c, 0. change (2 ^ 0) with 1.
    split; [exact Hfl|]. repeat (split; [lia|]). exact Hrange.
Qed.

Lemma shl_align_fst (m : positive) (e ez : Z) :
  ez <= e -> Zpos (fst (shl_align m e ez)) = Zpos m * 2 ^ (e - ez).
Proof.
  intros H. unfold shl_align. destruct (ez - e) as [|p|p] eqn:E; cbn [fst].
  - replace (e - ez) with 0 by lia. cbn. lia.
  - lia.
  - rewrite pos_iter_xO. f_equal. f_equal. lia.
Qed.

Lemma normalize_spec (M E : Z) :
  0 <= M -> -1000 <= E -> E + digits M <= 900 ->
  binary_normalize 53 1024 M E false = fl E (rnv M).
Proof.
  intros HM HE Hd. destruct M as [|p|p]; [reflexivity| |lia].
  unfold binary_normalize.
  change p with (Z.to_pos (Zpos p)) at 1. apply binary_round_spec; lia.
Qed.

Lemma pow2_split (x y z : Z) : 0 <= y -> 0 <= z -> x = y + z -> 2 ^ x = 2 ^ y * 2 ^ z.
Proof. intros Hy Hz ->. apply Z.pow_add_r; lia. Qed.

(** Sum and difference of two values on a common grid. *)
Lemma addsub_fl (G V1 V2 : Z) (sub : bool) :
  wf G V1 -> wf G V2 -> (sub = true -> V2 <= V1) ->
  (if sub then F.sub else F.add) (fl G V1) (fl G V2)
  = fl G (rnv (if sub then V1 - V2 else V1 + V2)).
Proof.
  intros W1 W2 Hle.
  assert (HV1 : 0 <= V1) by (destruct W1 as (_ & ? & _); lia).
  assert (HV2 : 0 <= V2) by (destruct W2 as (_ & ? & _); lia).
  destruct (Z.eq_dec V2 0) as [->|H2].
  { replace (if sub then V1 - 0 else V1 + 0) with V1 by (destruct sub; lia).
    rewrite rnv_exact by apply W1. cbn [fl].
    destruct (fl_cases G V1) as [-> | (m & e & ->)]; destruct sub; reflexivity. }
  destruct (Z.eq_dec V1 0) as [->|H1].
  { destruct sub; [specialize (Hle eq_refl); lia|].
    rewrite Z.add_0_l, rnv_exact by apply W2. cbn [fl].
    destruct (fl_cases G V2) as [-> | (m & e & ->)]; reflexivity. }
  destruct (fl_decomp_ab G V1 ltac:(lia) ltac:(apply W1))
    as (m1 & e1 & a1 & b1 & -> & Hm1 & Hd1 & Ha1 & Hb1 & Hv1 & He1 & Hr1).
  destruct (fl_decomp_ab G V2 ltac:(lia) ltac:(apply W2))
    as (m2 & e2 & a2 & b2 & -> & Hm2 & Hd2 & Ha2 & Hb2 & Hv2 & He2 & Hr2).
  specialize (Hr1 W1). specialize (Hr2 W2).
  set (ez := Z.min e1 e2).
  set (S := if sub then m1 * 2 ^ (e1 - ez) - m2 * 2 ^ (e2 - ez)
            else m1 * 2 ^ (e1 - ez) + m2 * 2 ^ (e2 - ez)).
  assert (Hop : (if sub then F.sub else F.add)
                  (S754_finite false (Z.to_pos m1) e1)
                  (S754_finite false (Z.to_pos m2) e2)
                = binary_normalize 53 1024 S ez false).
  { destruct sub; unfold F.sub, F.add, SFsub, SFadd; fold ez; cbn [cond_Zopp];
      rewrite !shl_align_fst, !Z2Pos.id by lia; reflexivity. }
  rewrite Hop. clear Hop.
  set (A := ez - G + b1 + b2).
  assert (HA : 0 <= A) by lia.
  assert (Hp1 : 2 ^ (e1 - ez) * 2 ^ A = 2 ^ a1 * 2 ^ b2).
  { rewrite <- !Z.pow_add_r by lia. f_equal. lia. }
  assert (Hp2 : 2 ^ (e2 - ez) * 2 ^ A = 2 ^ a2 * 2 ^ b1).
  { rewrite <- !Z.pow_add_r by lia. f_equal. lia. }
  assert (HpA : 0 < 2 ^ A) by (apply Z.pow_pos_nonneg; lia).
  assert (Hpb : 0 < 2 ^ (b1 + b2)) by (apply Z.pow_pos_nonneg; lia).
  assert (HSA : S * 2 ^ A = (if sub then V1 - V2 else V1 + V2) * 2 ^ (b1 + b2)).
  { rewrite Z.pow_add_r by lia. unfold S. destruct sub.
    - rewrite Z.mul_sub_distr_r, <- !Z.mul_assoc, Hp1, Hp2.
      rewrite !Z.mul_assoc, Hv1, Hv2. lia.
    - rewrite Z.mul_add_distr_r, <- !Z.mul_assoc, Hp1, Hp2.
      rewrite !Z.mul_assoc, Hv1, Hv2. lia. }
  set (V := if sub then V1 - V2 else V1 + V2) in *.
  assert (HV : 0 <= V) by (unfold V; destruct sub; [specialize (Hle eq_refl)|]; lia).
  assert (HS : 0 <= S) by nia.
  set (K := Z.max e1 e2 - ez).
  assert (HSbound : S < 2 ^ (54 + K)).
  { assert (2 ^ (e1 - ez) <= 2 ^ K) by (apply Z.pow_le_mono_r; lia).
    assert (2 ^ (e2 - ez) <= 2 ^ K) by (apply Z.pow_le_mono_r; lia).
    assert (0 < 2 ^ (e1 - ez)) by (apply Z.pow_pos_nonneg; lia).
    assert (0 < 2 ^ (e2 - ez)) by (apply Z.pow_pos_nonneg; lia).
    destruct (digits_bounds m1 Hm1) as (_ & _ & Hh1). rewrite Hd1 in Hh1.
    destruct (digits_bounds m2 Hm2) as (_ & _ & Hh2). rewrite Hd2 in Hh2.
    assert (m1 * 2 ^ (e1 - ez) < 2 ^ 53 * 2 ^ K) by nia.
    assert (m2 * 2 ^ (e2 - ez) < 2 ^ 53 * 2 ^ K) by nia.
    rewrite Z.pow_add_r by lia. change (2 ^ 54) with (2 ^ 53 * 2).
    unfold S. destruct sub; lia. }
  rewrite normalize_spec; [|lia|lia|].
  2:{ pose proof (digits_lt_pow S (54 + K) ltac:(lia) ltac:(lia)). lia. }
  destruct (Z.eq_dec S 0) as [HS0 | HS0].
  - assert (V = 0) by nia. rewrite HS0. replace V with 0. reflexivity.
  - apply (fl_rnv_equiv _ _ _ _ A (b1 + b2));
      try exact HSA; try lia; try nia; unfold A; lia.
Qed.

Lemma trunc_fl (G V : Z) :
  0 <= V -> repr V -> F.trunc (fl G V) = Return (Z.shiftl V G).
Proof.
  intros HV Hr. destruct (Z.eq_dec V 0) as [->|H0].
  { rewrite Z.shiftl_0_l. reflexivity. }
  destruct (fl_decomp G V ltac:(lia) Hr) as (m & e & c & -> & Hm & Hd & Hc & HC).
  unfold F.trunc. cbn [cond_Zopp]. rewrite Z2Pos.id by lia. f_equal.
  destruct HC as [[-> ->] | [-> ->]].
  - rewrite <- Z.shiftl_mul_pow2, Z.shiftl_shiftl by lia. f_equal. lia.
  - rewrite <- Z.shiftl_mul_pow2, Z.shiftl_shiftl by lia. f_equal. lia.
Qed.

Lemma of_int_fl (n : Z) :
  0 <= n < 2 ^ 53 -> F.of_int n = Return (fl 0 n).
Proof.
  intros Hn. unfold F.of_int, F.of_Z.
  pose proof (digits_lt_pow n 53 Hn ltac:(lia)) as Hd.
  rewrite normalize_spec by lia. rewrite rnv_small by assumption.
  destruct (fl_cases 0 n) as [-> | (m & e & ->)]; reflexivity.
Qed.

Lemma wf_small (G V : Z) : -400 <= G <= 100 -> 0 <= V < 2 ^ 53 -> wf G V.
Proof.
  intros HG HV. split; [assumption|]. split.
  - assert (2 ^ 53 < 2 ^ 300) by (apply Z.pow_lt_mono_r; lia). lia.
  - apply repr_small, digits_lt_pow; lia.
Qed.

Lemma mod_pow2_mul (X k n : Z) : 0 <= n <= k -> (X * 2 ^ k) mod 2 ^ n = 0.
Proof.
  intros H. replace k with ((k - n) + n) by lia.
  rewrite Z.pow_add_r, Z.mul_assoc by lia. apply Z.mod_mul.
  apply Z.pow_nonzero; lia.
Qed.

Lemma rnv_ge (A M : Z) :
  0 <= A <= M -> A mod 2 ^ Z.max 0 (digits M - 53) = 0 -> A <= rnv M.
Proof.
  intros HA Hmod. unfold rnv. set (n := Z.max 0 (digits M - 53)) in *.
  assert (Hp : 0 < 2 ^ n) by (apply Z.pow_pos_nonneg; lia).
  pose proof (rne_bounds M n ltac:(lia) ltac:(lia)) as [Hq _].
  pose proof (Z.div_mod A (2 ^ n) ltac:(lia)) as HD. rewrite Hmod in HD.
  assert (A / 2 ^ n <= M / 2 ^ n) by (apply Z.div_le_mono; lia). nia.
Qed.

Lemma rnv_le (M B : Z) :
  0 <= M <= B -> B mod 2 ^ Z.max 0 (digits M - 53) = 0 -> rnv M <= B.
Proof.
  intros HM Hmod. unfold rnv. set (n := Z.max 0 (digits M - 53)) in *.
  assert (Hp : 0 < 2 ^ n) by (apply Z.pow_pos_nonneg; lia).
  pose proof (Z.div_mod B (2 ^ n) ltac:(lia)) as HB. rewrite Hmod in HB.
  pose proof (Z.div_mod M (2 ^ n) ltac:(lia)) as HD.
  pose proof (Z.mod_pos_bound M (2 ^ n) Hp) as Hr.
  destruct (Z.eq_dec (M mod 2 ^ n) 0) as [H0 | H0].
  - rewrite rne_exact by (try lia; assumption). lia.
  - pose proof (rne_bounds M n ltac:(lia) ltac:(lia)) as [_ Hq].
    assert (M / 2 ^ n < B / 2 ^ n) by nia. nia.
Qed.

Lemma rnv_upper (M : Z) : 0 < M -> rnv M * 2 ^ 52 <= M * (2 ^ 52 + 1).
Proof.
  intros HM. destruct (Z.le_gt_cases (digits M) 53) as [Hle | Hgt].
  - rewrite rnv_small by assumption. lia.
  - unfold rnv. replace (Z.max 0 (digits M - 53)) with (digits M - 53) by lia.
    set (n := digits M - 53).
    assert (Hp : 0 < 2 ^ n) by (apply Z.pow_pos_nonneg; lia).
    destruct (digits_bounds M HM) as (_ & Hlo & _).
    replace (digits M - 1) with (n + 52) in Hlo by lia.
    rewrite Z.pow_add_r in Hlo by lia.
    pose proof (rne_bounds M n ltac:(lia) ltac:(lia)) as [_ Hq].
    pose proof (Z.div_mod M (2 ^ n) ltac:(lia)) as HD.
    pose proof (Z.mod_pos_bound M (2 ^ n) Hp) as Hr.
    assert (rne M n * 2 ^ n <= M + 2 ^ n) by nia.
    nia.
Qed.

Lemma rnv_nonneg (M : Z) : 0 <= M -> 0 <= rnv M.
Proof.
  intros HM. apply rnv_ge; [lia|]. apply Z.mod_0_l, Z.pow_nonzero; lia.
Qed.

Lemma repr_rnv (M : Z) : 0 < M -> repr (rnv M).
Proof.
  intros HM. destruct (Z.le_gt_cases (digits M) 53) as [Hle | Hgt].
  - rewrite rnv_small by assumption. apply repr_small; assumption.
  - unfold rnv. replace (Z.max 0 (digits M - 53)) with (digits M - 53) by lia.
    set (n := digits M - 53).
    assert (Hp : 0 < 2 ^ n) by (apply Z.pow_pos_nonneg; lia).
    destruct (digits_bounds M HM) as (_ & Hlo & Hhi).
    pose proof (div_pow2_bounds M (digits M) n ltac:(lia) ltac:(lia) (conj Hlo Hhi)) as Hq.
    replace (digits M - 1 - n) with 52 in Hq by lia.
    replace (digits M - n) with 53 in Hq by lia.
    pose proof (rne_bounds M n ltac:(lia) ltac:(lia)) as Hr.
    unfold repr.
    destruct (Z.eq_dec (rne M n) (2 ^ 53)) as [Heq | Hne].
    + rewrite Heq. rewrite digits_mul_pow2 by lia. change (digits (2 ^ 53)) with 54.
      replace (Z.max 0 (54 + n - 53)) with (n + 1) by lia.
      rewrite <- Z.pow_add_r by lia. replace (53 + n) with (52 + (n + 1)) by lia.
      rewrite Z.pow_add_r by lia. apply Z.mod_mul, Z.pow_nonzero; lia.
    + assert (Hd : digits (rne M n) = 53) by (apply digits_unique; lia).
      rewrite digits_mul_pow2, Hd by lia.
      replace (Z.max 0 (53 + n - 53)) with n by lia.
      apply Z.mod_mul, Z.pow_nonzero; lia.
Qed.

Lemma wf_rnv (G M : Z) : -400 <= G <= 100 -> 0 <= M < 2 ^ 299 -> wf G (rnv M).
Proof.
  intros HG HM. split; [assumption|].
  destruct (Z.eq_dec M 0) as [->|H0].
  { rewrite rnv_0. split; [split; [lia|apply Z.pow_pos_nonneg; lia]|reflexivity]. }
  split; [|apply repr_rnv; lia]. split; [apply rnv_nonneg; lia|].
  pose proof (rnv_upper M ltac:(lia)).
  change (2 ^ 300) with (2 ^ 299 * 2). lia.
Qed.

Lemma repr_mul_pow2 (V k : Z) : 0 <= V -> 0 <= k -> repr V -> repr (V * 2 ^ k).
Proof.
  intros HV Hk Hr. destruct (Z.eq_dec V 0) as [->|H0]; [exact Hr|].
  unfold repr in *. rewrite digits_mul_pow2 by lia.
  destruct (Z.le_gt_cases (digits V) 53) as [Hle | Hgt].
  - apply mod_pow2_mul. lia.
  - replace (Z.max 0 (digits V - 53)) with (digits V - 53) in Hr by lia.
    replace (Z.max 0 (digits V + k - 53)) with (digits V - 53 + k) by lia.
    rewrite Z.pow_add_r, Z.mul_mod_distr_r, Hr by (try apply Z.pow_nonzero; lia).
    reflexivity.
Qed.

Lemma wf_mul_pow2 (G V k : Z) :
  wf G V -> 0 <= k -> -400 <= G - k -> V * 2 ^ k < 2 ^ 300 -> wf (G - k) (V * 2 ^ k).
Proof.
  intros (HG & HV & Hr) Hk HGk Hlt.
  assert (0 < 2 ^ k) by (apply Z.pow_pos_nonneg; lia).
  split; [lia|]. split; [nia|]. apply repr_mul_pow2; try lia; exact Hr.
Qed.

Lemma finite_normal_fl (m : positive) (e : Z) :
  digits (Zpos m) = 53 -> S754_finite false m e = fl e (Zpos m).
Proof.
  intros H. unfold fl, mant. rewrite H. change (53 - 53) with 0.
  rewrite Z.shiftl_0_r. cbn [Z.to_pos]. f_equal. lia.
Qed.

(** A valid float between two positive floats of consecutive binades. *)
Lemma box_fl (x : F.float) (mlo mhi : positive) (elo : Z) :
  F.valid x = true -> -1000 <= elo <= 900 ->
  F.leb (S754_finite false mlo elo) x = true ->
  F.leb x (S754_finite false mhi (elo + 1)) = true ->
  exists L, x = fl elo L /\ repr L /\
    ((Zpos mlo <= L < 2 ^ 53) \/ (2 ^ 53 <= L <= 2 * Zpos mhi)).
Proof.
  intros Hv He Hlo Hhi.
  destruct x as [s|s| |s m e]; try discriminate.
  { destruct s; discriminate. }
  destruct s; [discriminate|].
  unfold F.leb, SFleb, SFcompare in Hlo, Hhi.
  unfold F.valid, valid_binary, bounded, canonical_mantissa in Hv.
  apply andb_prop in Hv. destruct Hv as [Hc _]. apply Z.eqb_eq in Hc.
  change (Zpos (digits2_pos m)) with (digits (Zpos m)) in Hc.
  destruct (Z.compare_spec elo e) as [E1|E1|E1]; try discriminate.
  - (* same binade as the lower bound *)
    subst e. rewrite fexp_normal in Hc by (pose proof (digits_bounds (Zpos m)); lia).
    assert (Hd : digits (Zpos m) = 53) by lia.
    exists (Zpos m). split; [apply finite_normal_fl; exact Hd|].
    split; [apply repr_small; lia|]. left.
    destruct (digits_bounds (Zpos m) ltac:(lia)) as (_ & _ & Hh). rewrite Hd in Hh.
    split; [|exact Hh].
    change (Pos.compare_cont Eq mlo m) with (Pos.compare mlo m) in Hlo.
    rewrite Pos2Z.inj_compare in Hlo.
    destruct (Z.compare_spec (Zpos mlo) (Zpos m)); try discriminate; lia.
  - destruct (Z.compare_spec e (elo + 1)) as [E2|E2|E2]; try discriminate; [|lia].
    subst e. rewrite fexp_normal in Hc by (pose proof (digits_bounds (Zpos m)); lia).
    assert (Hd : digits (Zpos m) = 53) by lia.
    exists (Zpos m * 2 ^ 1). split.
    + rewrite finite_normal_fl by exact Hd.
      rewrite <- (fl_regrid (elo + 1) (Zpos m) 1) by lia. f_equal. lia.
    + split; [apply repr_mul_pow2; try lia; apply repr_small; lia|]. right.
      destruct (digits_bounds (Zpos m) ltac:(lia)) as (_ & Hl & _). rewrite Hd in Hl.
      change (2 ^ (53 - 1)) with (2 ^ 52) in Hl. change (2 ^ 53) with (2 ^ 52 * 2).
      change (2 ^ 1) with 2.
      change (Pos.compare_cont Eq m mhi) with (Pos.compare m mhi) in Hhi.
      rewrite Pos2Z.inj_compare in Hhi.
      destruct (Z.compare_spec (Zpos m) (Zpos mhi)); try discriminate; lia.
Qed.

Lemma lit_1_5 : F.lit 15 1 = fl (-1) 3.
Proof. vm_compute. reflexivity. Qed.

Lemma lit_8 : F.lit 80 1 = fl 0 8.
Proof. vm_compute. reflexivity. Qed.

Lemma lit_10 : F.lit 100 1 = fl 0 10.
Proof. vm_compute. reflexivity. Qed.

Lemma lit_12 : F.lit 120 1 = fl 2 3.
Proof. vm_compute. reflexivity. Qed.

Lemma EPS_fl : EPS = fl (-89) 6189700196426901.
Proof. vm_compute. reflexivity. Qed.

(** ** The mesh code of a point inside the box *)

Lemma shiftl_neg_div (V K : Z) : 0 <= K -> Z.shiftl V (- K) = V / 2 ^ K.
Proof. intros H. rewrite Z.shiftl_opp_r, Z.shiftr_div_pow2 by lia. reflexivity. Qed.

(** The secondary and tertiary digit of a fraction [Y / 8] of a cell, given
    as the float [Y * 2^-K]. *)
Lemma secondary_tertiary (K Y : Z) :
  40 <= K <= 49 -> 0 <= Y < 8 * 2 ^ K ->
  let x := fl (- K) Y in
  let d2 := Y / 2 ^ K in
  F.trunc x = Return d2 /\ 0 <= d2 <= 7 /\
  exists d3,
    F.trunc (F.lit 100 1 * (x - fl 0 d2) + EPS)%f64 = Return d3 /\ 0 <= d3 <= 10 /\
    d3 * 2 ^ K - 2 ^ (K - 36) <= 10 * (Y mod 2 ^ K) < (d3 + 1) * 2 ^ K.
Proof.
  intros HK HY x d2.
  assert (Hp : 0 < 2 ^ K) by (apply Z.pow_pos_nonneg; lia).
  assert (HKb : 2 ^ K <= 2 ^ 49) by (apply Z.pow_le_mono_r; lia).
  assert (HKl : 2 ^ 40 <= 2 ^ K) by (apply Z.pow_le_mono_r; lia).
  assert (HY53 : Y < 2 ^ 53) by (change (2 ^ 53) with (8 * (2 ^ 49 * 2)); lia).
  assert (Hd2 : 0 <= d2 <= 7).
  { unfold d2. split; [apply Z.div_pos; lia|].
    assert (Y / 2 ^ K < 8) by (apply Z.div_lt_upper_bound; lia). lia. }
  assert (WY : wf (- K) Y) by (apply wf_small; lia).
  split; [|split; [exact Hd2|]].
  { unfold x. rewrite trunc_fl by (try lia; apply WY).
    rewrite shiftl_neg_div by lia. reflexivity. }
  (* x - d2 *)
  pose proof (Z.div_mod Y (2 ^ K) ltac:(lia)) as HD. fold d2 in HD.
  pose proof (Z.mod_pos_bound Y (2 ^ K) Hp) as HB.
  set (Gv := Y mod 2 ^ K) in *.
  assert (Wd2 : wf (- K) (d2 * 2 ^ K)) by (apply wf_small; nia).
  assert (Hsub : (x - fl 0 d2)%f64 = fl (- K) Gv).
  { unfold x. rewrite <- (fl_regrid 0 d2 K) by lia. change (0 - K) with (- K).
    pose proof (addsub_fl (- K) Y (d2 * 2 ^ K) true WY Wd2 ltac:(intros _; lia)) as H.
    cbv iota in H. rewrite H. replace (Y - d2 * 2 ^ K) with Gv by lia.
    rewrite rnv_small by (apply digits_lt_pow; lia). reflexivity. }
  rewrite Hsub, lit_10.
  assert (WG : wf (- K) Gv) by (apply wf_small; lia).
  assert (W10 : wf 0 10) by (apply wf_small; lia).
  rewrite (mul_fl 0 10 (- K) Gv W10 WG). change (0 + - K) with (- K).
  assert (H10 : 0 <= 10 * Gv < 2 ^ 53) by (change (2 ^ 53) with (16 * 2 ^ 49); lia).
  rewrite rnv_small by (apply digits_lt_pow; lia).
  (* + EPS on the grid 2^-89 *)
  set (k := 89 - K).
  assert (Hk : 40 <= k <= 49) by lia.
  assert (Hpk : 0 < 2 ^ k) by (apply Z.pow_pos_nonneg; lia).
  assert (Hkk : 2 ^ K * 2 ^ k = 2 ^ 89) by (rewrite <- Z.pow_add_r by lia; f_equal; lia).
  set (S1 := 10 * Gv * 2 ^ k).
  assert (HS1 : 0 <= S1 < 10 * 2 ^ 89) by (unfold S1; nia).
  assert (Hregrid : fl (- K) (10 * Gv) = fl (-89) S1).
  { unfold S1. rewrite <- (fl_regrid (- K) (10 * Gv) k) by lia. f_equal. lia. }
  rewrite Hregrid, EPS_fl.
  assert (W1 : wf (-89) S1).
  { split; [lia|]. split.
    - assert (2 ^ 93 < 2 ^ 300) by (apply Z.pow_lt_mono_r; lia).
      change (2 ^ 93) with (16 * 2 ^ 89) in *. lia.
    - unfold S1. apply repr_mul_pow2; try lia. apply repr_small, digits_lt_pow; lia. }
  assert (WE : wf (-89) 6189700196426901) by (apply wf_small; lia).
  pose proof (addsub_fl (-89) S1 6189700196426901 false W1 WE ltac:(discriminate)) as Hadd.
  cbv iota in Hadd. rewrite Hadd.
  set (S := S1 + 6189700196426901).
  assert (HS : 0 < S < 10 * 2 ^ 89 + 2 ^ 53) by (unfold S; lia).
  pose proof (rnv_upper S ltac:(lia)) as Hup.
  pose proof (rnv_nonneg S ltac:(lia)) as Hnn.
  rewrite trunc_fl by (try lia; apply repr_rnv; lia).
  change (-89) with (- (89)). rewrite shiftl_neg_div by lia.
  eexists. split; [reflexivity|].
  split.
  { split; [apply Z.div_pos; lia|].
    assert (rnv S / 2 ^ 89 < 11); [|lia].
    apply Z.div_lt_upper_bound; [lia|].
    assert (rnv S * 2 ^ 52 < 2 ^ 89 * 11 * 2 ^ 52); [|lia].
    eapply Z.le_lt_trans; [exact Hup|]. lia. }
  pose proof (Z.div_mod (rnv S) (2 ^ 89) ltac:(lia)) as HDr.
  pose proof (Z.mod_pos_bound (rnv S) (2 ^ 89) ltac:(lia)) as HBr.
  set (d3 := rnv S / 2 ^ 89) in *.
  assert (Hk36 : 2 ^ (K - 36) * 2 ^ k = 2 ^ 53)
    by (rewrite <- Z.pow_add_r by lia; f_equal; lia).
  assert (Hp36 : 0 < 2 ^ (K - 36)) by (apply Z.pow_pos_nonneg; lia).
  assert (Hk40 : 2 ^ 40 <= 2 ^ k) by (apply Z.pow_le_mono_r; lia).
  split.
  - (* the sum exceeds 10 * Gv by less than 2^-36 *)
    assert (Hlt : rnv S < S1 + 2 ^ 53 + 2 ^ 40).
    { assert (rnv S * 2 ^ 52 < (S1 + 2 ^ 53 + 2 ^ 40) * 2 ^ 52); [|lia].
      eapply Z.le_lt_trans; [exact Hup|]. unfold S. lia. }
    destruct (Z.le_gt_cases (d3 * 2 ^ K - 2 ^ (K - 36)) (10 * Gv)) as [Hle|Hgt];
      [exact Hle|exfalso].
    assert (H1 : (10 * Gv + 2 ^ (K - 36) + 1) * 2 ^ k <= d3 * 2 ^ K * 2 ^ k)
      by (apply Z.mul_le_mono_nonneg_r; lia).
    rewrite <- Z.mul_assoc, Hkk in H1.
    rewrite !Z.mul_add_distr_r, Hk36 in H1. fold S1 in H1. lia.
  - (* rounding does not go below a multiple of 2^89 *)
    set (m := 10 * Gv / 2 ^ K).
    pose proof (Z.div_mod (10 * Gv) (2 ^ K) ltac:(lia)) as HDm. fold m in HDm.
    pose proof (Z.mod_pos_bound (10 * Gv) (2 ^ K) Hp) as HBm.
    assert (Hm0 : 0 <= m) by (apply Z.div_pos; lia).
    assert (HmS : m * 2 ^ 89 <= S).
    { unfold S, S1. rewrite <- Hkk, Z.mul_assoc.
      assert (m * 2 ^ K * 2 ^ k <= 10 * Gv * 2 ^ k)
        by (apply Z.mul_le_mono_nonneg_r; lia). lia. }
    assert (HdS : digits S <= 94).
    { apply digits_lt_pow; [|lia]. change (2 ^ 94) with (32 * 2 ^ 89). lia. }
    assert (Hge : m * 2 ^ 89 <= rnv S).
    { apply rnv_ge; [split; [apply Z.mul_nonneg_nonneg; lia | exact HmS]|].
      apply mod_pow2_mul. lia. }
    assert (Hmd : m <= d3) by (apply Z.div_le_lower_bound; lia).
    assert ((m + 1) * 2 ^ K <= (d3 + 1) * 2 ^ K)
      by (apply Z.mul_le_mono_nonneg_r; lia).
    lia.
Qed.

Lemma wf_int_grid (n k : Z) :
  0 <= n < 2 ^ 53 -> 0 <= k <= 100 -> wf (- k) (n * 2 ^ k).
Proof.
  intros Hn Hk. change (- k) with (0 - k). apply wf_mul_pow2; try lia.
  - apply wf_small; lia.
  - assert (0 < 2 ^ k) by (apply Z.pow_pos_nonneg; lia).
    assert (2 ^ k <= 2 ^ 100) by (apply Z.pow_le_mono_r; lia).
    assert (2 ^ 53 * 2 ^ 100 < 2 ^ 300) by (rewrite <- Z.pow_add_r by lia; apply Z.pow_lt_mono_r; lia).
    nia.
Qed.

Ltac bind_ret H := rewrite H; cbn [mbind result_bind rbind].

(** The digits of a latitude inside the box, and where the point
    [L * 2^-48] lies in the row they name. *)
Lemma spec_lat_digits_cell (lat : F.float) :
  F.valid lat = true ->
  F.leb (F.of_Z 20) lat = true -> F.leb lat (F.of_Z 46) = true ->
  exists a1 a2 a3 L,
    spec_lat_digits lat = Return (a1, a2, a3) /\
    30 <= a1 <= 69 /\ 0 <= a2 <= 7 /\ 0 <= a3 <= 10 /\
    lat = fl (-48) L /\ 0 <= L /\ repr L /\
    (80 * a1 + 10 * a2 + a3) * 2 ^ 49 - 2 ^ 14 <= 240 * L
      < (80 * a1 + 10 * a2 + a3 + 1) * 2 ^ 49 + 2 ^ 10.
Proof.
  intros Hv Hlo Hhi.
  change (F.of_Z 20) with (S754_finite false 5629499534213120 (-48)) in Hlo.
  change (F.of_Z 46) with (S754_finite false 6473924464345088 (-48 + 1)) in Hhi.
  destruct (box_fl lat 5629499534213120 6473924464345088 (-48) Hv ltac:(lia) Hlo Hhi)
    as (L & -> & Hr & HL).
  assert (HLb : 20 * 2 ^ 48 <= L <= 46 * 2 ^ 48) by lia. clear HL.
  assert (WL : wf (-48) L).
  { split; [lia|]. split; [|exact Hr].
    assert (2 ^ 54 < 2 ^ 300) by (apply Z.pow_lt_mono_r; lia). lia. }
  assert (W3 : wf (-1) 3) by (apply wf_small; lia).
  assert (W8 : wf 0 8) by (apply wf_small; lia).
  assert (W12 : wf 2 3) by (apply wf_small; lia).
  (* t = lat * 1.5 *)
  set (T := rnv (3 * L)).
  assert (Ht1 : (fl (-48) L * F.lit 15 1)%f64 = fl (-49) T).
  { rewrite lit_1_5, (mul_fl _ _ _ _ WL W3). unfold T. do 2 f_equal. lia. }
  assert (Ht2 : (F.lit 15 1 * fl (-48) L)%f64 = fl (-49) T).
  { rewrite lit_1_5, (mul_fl _ _ _ _ W3 WL). reflexivity. }
  assert (Hd3L : digits (3 * L) <= 56) by (apply digits_lt_pow; lia).
  assert (HT : 30 * 2 ^ 49 <= T <= 69 * 2 ^ 49).
  { unfold T. split.
    - apply rnv_ge; [lia|]. apply mod_pow2_mul.
      pose proof (digits_bounds (3 * L) ltac:(lia)). lia.
    - apply rnv_le; [lia|]. apply mod_pow2_mul.
      pose proof (digits_bounds (3 * L) ltac:(lia)). lia. }
  assert (WT : wf (-49) T).
  { apply wf_rnv; [lia|]. assert (2 ^ 56 < 2 ^ 299) by (apply Z.pow_lt_mono_r; lia). lia. }
  set (a1 := T / 2 ^ 49).
  assert (Ha1 : 30 <= a1 <= 69).
  { unfold a1. split; [apply Z.div_le_lower_bound; lia|].
    assert (T / 2 ^ 49 < 70) by (apply Z.div_lt_upper_bound; lia). lia. }
  pose proof (Z.div_mod T (2 ^ 49) ltac:(lia)) as HD. fold a1 in HD.
  pose proof (Z.mod_pos_bound T (2 ^ 49) ltac:(lia)) as HB.
  set (Fr := T mod 2 ^ 49) in *.
  assert (Wa1 : wf (-49) (a1 * 2 ^ 49)) by (apply (wf_int_grid a1 49); lia).
  (* 8.0 * (1.5 * lat - lat1) *)
  assert (Hx : (F.lit 80 1 * (F.lit 15 1 * fl (-48) L - fl 0 a1))%f64 = fl (- (49)) (8 * Fr)).
  { rewrite Ht2, lit_8. rewrite <- (fl_regrid 0 a1 49) by lia. change (0 - 49) with (-49).
    pose proof (addsub_fl (-49) T (a1 * 2 ^ 49) true WT Wa1 ltac:(intros _; lia)) as H.
    cbv iota in H. rewrite H. replace (T - a1 * 2 ^ 49) with Fr by lia.
    rewrite rnv_small by (apply digits_lt_pow; lia).
    rewrite (mul_fl 0 8 (-49) Fr W8 ltac:(apply wf_small; lia)).
    rewrite rnv_small by (apply digits_lt_pow; lia). reflexivity. }
  (* 12.0 * lat - 8.0 * lat1 *)
  assert (Hx' : (F.lit 120 1 * fl (-48) L - F.lit 80 1 * fl 0 a1)%f64 = fl (- (49)) (8 * Fr)).
  { rewrite lit_12, lit_8, (mul_fl _ _ _ _ W12 WL).
    rewrite (mul_fl 0 8 0 a1 W8 ltac:(apply wf_small; lia)).
    rewrite (rnv_small (8 * a1)) by (apply digits_lt_pow; lia).
    fold T. change (2 + -48) with (-46). change (0 + 0) with 0.
    rewrite <- (fl_regrid (-46) T 3) by lia.
    rewrite <- (fl_regrid 0 (8 * a1) 49) by lia.
    change (-46 - 3) with (-49). change (0 - 49) with (-49).
    assert (WT8 : wf (-49) (T * 2 ^ 3)).
    { assert (WT46 : wf (-46) T).
      { destruct WT as (_ & HTb & HTr). split; [lia|]. split; [exact HTb | exact HTr]. }
      assert (2 ^ 60 < 2 ^ 300) by (apply Z.pow_lt_mono_r; lia).
      change (-49) with (-46 - 3). apply wf_mul_pow2; try lia; exact WT46. }
    pose proof (addsub_fl (-49) (T * 2 ^ 3) (8 * a1 * 2 ^ 49) true WT8
                  ltac:(apply (wf_int_grid (8 * a1) 49); lia) ltac:(intros _; lia)) as H.
    cbv iota in H. rewrite H.
    replace (T * 2 ^ 3 - 8 * a1 * 2 ^ 49) with (8 * Fr) by lia.
    rewrite rnv_small by (apply digits_lt_pow; lia). reflexivity. }
  destruct (secondary_tertiary 49 (8 * Fr) ltac:(lia) ltac:(lia))
    as (Htr2 & Ha2 & a3 & Htr3 & Ha3 & Hcell).
  pose proof (Z.div_mod (8 * Fr) (2 ^ 49) ltac:(lia)) as HD2.
  set (a2 := 8 * Fr / 2 ^ 49) in *.
  exists a1, a2, a3, L.
  split; [|split; [exact Ha1|split; [exact Ha2|split; [exact Ha3|]]]].
  { unfold spec_lat_digits.
    assert (Htl : F.trunc (fl (-49) T) = Return a1).
    { rewrite trunc_fl by (try lia; apply WT).
      change (-49) with (- (49)). rewrite shiftl_neg_div by lia. reflexivity. }
    bind_ret Ht1. bind_ret Htl.
    rewrite (of_int_fl a1) by lia. cbn [mbind result_bind rbind].
    bind_ret Hx. bind_ret Htr2.
    rewrite (of_int_fl a2) by lia. cbn [mbind result_bind rbind].
    rewrite Hx'. bind_ret Htr3. reflexivity. }
  split; [reflexivity|]. split; [lia|]. split; [exact Hr|].
  (* [T] is [3 * L] rounded to a multiple of at most 8 *)
  assert (HTu : T < 3 * L + 16).
  { pose proof (rnv_upper (3 * L) ltac:(lia)) as Hup. fold T in Hup.
    assert (T * 2 ^ 52 < (3 * L + 16) * 2 ^ 52); [|lia].
    eapply Z.le_lt_trans; [exact Hup|].
    assert (3 * L < 16 * 2 ^ 52) by (change (16 * 2 ^ 52) with (2 ^ 56); lia). lia. }
  assert (HTl : 3 * L - 7 <= T).
  { pose proof (Z.div_mod (3 * L) 8 ltac:(lia)) as HD8.
    pose proof (Z.mod_pos_bound (3 * L) 8 ltac:(lia)) as HB8.
    assert (8 * (3 * L / 8) <= T); [|lia].
    unfold T. apply rnv_ge; [lia|].
    rewrite Z.mul_comm. change 8 with (2 ^ 3). apply mod_pow2_mul. lia. }
  change (2 ^ (49 - 36)) with (2 ^ 13) in Hcell.
  change (2 ^ 14) with (2 ^ 13 + 2 ^ 13). change (2 ^ 13) with 8192 in *.
  change (2 ^ 10) with 1024.
  set (E10 := 10 * (8 * Fr mod 2 ^ 49)) in *.
  assert (H80 : 80 * T = (80 * a1 + 10 * a2) * 2 ^ 49 + E10) by (unfold E10; lia).
  lia.
Qed.

Lemma spec_lat_digits_in_box (lat : F.float) :
  F.valid lat = true ->
  F.leb (F.of_Z 20) lat = true -> F.leb lat (F.of_Z 46) = true ->
  exists a1 a2 a3,
    spec_lat_digits lat = Return (a1, a2, a3) /\
    30 <= a1 <= 69 /\ 0 <= a2 <= 7 /\ 0 <= a3 <= 10.
Proof.
  intros Hv Hlo Hhi.
  destruct (spec_lat_digits_cell lat Hv Hlo Hhi)
    as (a1 & a2 & a3 & L & H & H1 & H2 & H3 & _).
  exists a1, a2, a3. auto.
Qed.

(** The digits of a longitude inside the box, and where the point
    [L * 2^-46] lies in the column they name. *)
Lemma spec_lon_digits_cell (lon : F.float) :
  F.valid lon = true ->
  F.leb (F.of_Z 120) lon = true -> F.leb lon (F.of_Z 154) = true ->
  exists o1 o2 o3 L,
    spec_lon_digits lon = Return (o1, o2, o3) /\
    20 <= o1 <= 54 /\ 0 <= o2 <= 7 /\ 0 <= o3 <= 10 /\
    lon = fl (-46) L /\ 0 <= L /\ repr L /\
    (80 * o1 + 10 * o2 + o3) * 2 ^ 46 - 2 ^ 10 <= 80 * (L - 100 * 2 ^ 46)
      < (80 * o1 + 10 * o2 + o3 + 1) * 2 ^ 46.
Proof.
  intros Hv Hlo Hhi.
  change (F.of_Z 120) with (S754_finite false 8444249301319680 (-46)) in Hlo.
  change (F.of_Z 154) with (S754_finite false 5418393301680128 (-46 + 1)) in Hhi.
  destruct (box_fl lon 8444249301319680 5418393301680128 (-46) Hv ltac:(lia) Hlo Hhi)
    as (L & -> & Hr & HL).
  assert (HLb : 120 * 2 ^ 46 <= L <= 154 * 2 ^ 46) by lia. clear HL.
  assert (WL : wf (-46) L).
  { split; [lia|]. split; [|exact Hr].
    assert (2 ^ 54 < 2 ^ 300) by (apply Z.pow_lt_mono_r; lia). lia. }
  assert (W8 : wf 0 8) by (apply wf_small; lia).
  set (I := L / 2 ^ 46).
  assert (HI : 120 <= I <= 154).
  { unfold I. split; [apply Z.div_le_lower_bound; lia|].
    assert (L / 2 ^ 46 < 155) by (apply Z.div_lt_upper_bound; lia). lia. }
  pose proof (Z.div_mod L (2 ^ 46) ltac:(lia)) as HD. fold I in HD.
  pose proof (Z.mod_pos_bound L (2 ^ 46) ltac:(lia)) as HB.
  set (Fr := L mod 2 ^ 46) in *.
  assert (Hx : (F.lit 80 1 * (fl (-46) L - fl 0 I))%f64 = fl (- (46)) (8 * Fr)).
  { rewrite lit_8. rewrite <- (fl_regrid 0 I 46) by lia. change (0 - 46) with (-46).
    pose proof (addsub_fl (-46) L (I * 2 ^ 46) true WL
                  ltac:(apply (wf_int_grid I 46); lia) ltac:(intros _; lia)) as H.
    cbv iota in H. rewrite H. replace (L - I * 2 ^ 46) with Fr by lia.
    rewrite rnv_small by (apply digits_lt_pow; lia).
    rewrite (mul_fl 0 8 (-46) Fr W8 ltac:(apply wf_small; lia)).
    rewrite rnv_small by (apply digits_lt_pow; lia). reflexivity. }
  destruct (secondary_tertiary 46 (8 * Fr) ltac:(lia) ltac:(lia))
    as (Htr2 & Ho2 & o3 & Htr3 & Ho3 & Hcell).
  pose proof (Z.div_mod (8 * Fr) (2 ^ 46) ltac:(lia)) as HD2.
  set (o2 := 8 * Fr / 2 ^ 46) in *.
  exists (I - 100), o2, o3, L.
  split; [|split; [lia|split; [exact Ho2|split; [exact Ho3|]]]].
  { assert (Htl : F.trunc (fl (-46) L) = Return I).
    { rewrite trunc_fl by (try lia; apply WL).
      change (-46) with (- (46)). rewrite shiftl_neg_div by lia. reflexivity. }
    unfold spec_lon_digits. bind_ret Htl. rewrite Z.sub_add.
    rewrite (of_int_fl I) by lia. cbn [mbind result_bind rbind].
    bind_ret Hx. bind_ret Htr2.
    rewrite (of_int_fl o2) by lia. cbn [mbind result_bind rbind].
    bind_ret Htr3. reflexivity. }
  split; [reflexivity|]. split; [lia|]. split; [exact Hr|].
  change (2 ^ (46 - 36)) with (2 ^ 10) in Hcell.
  set (E10 := 10 * (8 * Fr mod 2 ^ 46)) in *.
  assert (H80 : 80 * (L - 100 * 2 ^ 46)
                = (80 * (I - 100) + 10 * o2) * 2 ^ 46 + E10) by (unfold E10; lia).
  lia.
Qed.

Lemma spec_lon_digits_in_box (lon : F.float) :
  F.valid lon = true ->
  F.leb (F.of_Z 120) lon = true -> F.leb lon (F.of_Z 154) = true ->
  exists o1 o2 o3,
    spec_lon_digits lon = Return (o1, o2, o3) /\
    20 <= o1 <= 54 /\ 0 <= o2 <= 7 /\ 0 <= o3 <= 10.
Proof.
  intros Hv Hlo Hhi.
  destruct (spec_lon_digits_cell lon Hv Hlo Hhi)
    as (o1 & o2 & o3 & L & H & H1 & H2 & H3 & _).
  exists o1, o2, o3. auto.
Qed.

Lemma carry_normalize_range (d1 d2 d3 : Z) :
  0 <= d2 <= 7 -> 0 <= d3 <= 10 ->
  let '(c1, c2, c3) := carry_normalize (d1, d2, d3) in
  d1 <= c1 <= d1 + 1 /\ 0 <= c2 <= 7 /\ 0 <= c3 <= 9.
Proof.
  intros H2 H3. unfold carry_normalize.
  destruct (Z.eqb_spec d3 10), (Z.eqb_spec (d2 + 1) 8); lia.
Qed.

Lemma assert_range (x lo hi : Z) :
  lo <= x <= hi -> py_assert ((lo <=? x) && (x <=? hi)) = Return tt.
Proof.
  intros H. unfold py_assert.
  destruct (Z.leb_spec lo x), (Z.leb_spec x hi); try lia. reflexivity.
Qed.

(** Inside the domain box [lat_lon2mesh_code] returns, with digits in
    range. *)
Lemma lat_lon2mesh_code_in_box (lat lon : F.float) :
  F.valid lat = true -> F.valid lon = true -> in_box lat lon = true ->
  exists mc lat1 lat2 lat3 lon1 lon2 lon3,
    lat_lon2mesh_code lat lon = Return mc /\
    mesh_code1 mc = lat1 * 100 + lon1 /\
    mesh_code2 mc = lat2 * 10 + lon2 /\
    mesh_code3 mc = lat3 * 10 + lon3 /\
    30 <= lat1 <= 70 /\ 20 <= lon1 <= 55 /\
    0 <= lat2 <= 7 /\ 0 <= lon2 <= 7 /\ 0 <= lat3 <= 9 /\ 0 <= lon3 <= 9.
Proof.
  intros Hvlat Hvlon Hbox. unfold in_box in Hbox.
  apply andb_prop in Hbox. destruct Hbox as [Hbox H4].
  apply andb_prop in Hbox. destruct Hbox as [Hbox H3].
  apply andb_prop in Hbox. destruct Hbox as [H1 H2].
  destruct (spec_lat_digits_in_box lat Hvlat H1 H2)
    as (a1 & a2 & a3 & Ha & Ha1 & Ha2 & Ha3).
  destruct (spec_lon_digits_in_box lon Hvlon H3 H4)
    as (o1 & o2 & o3 & Ho & Ho1 & Ho2 & Ho3).
  rewrite (lat_lon2mesh_code_factor lat lon _ _ Ha Ho).
  pose proof (carry_normalize_range a1 a2 a3 Ha2 Ha3) as Hca.
  pose proof (carry_normalize_range o1 o2 o3 Ho2 Ho3) as Hco.
  destruct (carry_normalize (a1, a2, a3)) as [[lat1 lat2] lat3].
  destruct (carry_normalize (o1, o2, o3)) as [[lon1 lon2] lon3].
  unfold mesh_code_of_digits.
  rewrite !of_int_fl by lia. cbn [mbind result_bind rbind].
  rewrite !assert_range by lia. cbn [mbind result_bind rbind].
  eexists _, lat1, lat2, lat3, lon1, lon2, lon3.
  split; [reflexivity|]. cbn [mesh_code1 mesh_code2 mesh_code3].
  repeat split; lia.
Qed.

(** * Further properties of the program *)

(** ** [lat_lon2mesh_code] *)

(** X2: the tertiary digits are truncations of a value to which
    [EPS = 1e-11] (the float [0x1.5fd7fe1796495p-37]) was added, and the
    digits the mesh code is built from are those digits after carry
    normalisation: a tertiary digit 10 becomes 0 and increments the
    secondary digit, and a secondary digit that reaches 8 becomes 0 and
    increments the primary component. *)
Theorem lat_lon2mesh_code_eps_carry (lat lon : F.float) (a o : Z * Z * Z) :
  spec_lat_digits lat = Return a ->
  spec_lon_digits lon = Return o ->
  EPS = S754_finite false 6189700196426901 (-89) /\
  lat_lon2mesh_code lat lon
  = mesh_code_of_digits lat lon (carry_normalize a) (carry_normalize o) /\
  forall mc, lat_lon2mesh_code lat lon = Return mc ->
    let '(lat1, lat2, lat3) := carry_normalize a in
    let '(lon1, lon2, lon3) := carry_normalize o in
    mesh_code1 mc = lat1 * 100 + lon1 /\
    mesh_code2 mc = lat2 * 10 + lon2 /\
    mesh_code3 mc = lat3 * 10 + lon3.
Proof.
  intros Ha Ho. split; [vm_compute; reflexivity|].
  pose proof (lat_lon2mesh_code_factor lat lon a o Ha Ho) as Hf.
  split; [exact Hf|]. intros mc Hmc. rewrite Hf in Hmc.
  destruct (carry_normalize a) as [[lat1 lat2] lat3].
  destruct (carry_normalize o) as [[lon1 lon2] lon3].
  unfold mesh_code_of_digits in Hmc. bind_inv Hmc.
  injection Hmc as <-. auto.
Qed.

(** At [lat = 36.0833333333333] the tertiary latitude digit is computed as
    10 and carried. *)
Lemma lat_lon2mesh_code_eps_carry_witness :
  spec_lat_digits (F.lit 360833333333333 13) = Return (54, 0, 10) /\
  spec_lon_digits (F.of_Z 130) = Return (30, 0, 0) /\
  carry_normalize (54, 0, 10) = (54, 1, 0) /\
  lat_lon2mesh_code (F.lit 360833333333333 13) (F.of_Z 130)
  = mesh_code_of_digits (F.lit 360833333333333 13) (F.of_Z 130) (54, 1, 0) (30, 0, 0).
Proof.
  assert (Ha : spec_lat_digits (F.lit 360833333333333 13) = Return (54, 0, 10))
    by (vm_compute; reflexivity).
  assert (Ho : spec_lon_digits (F.of_Z 130) = Return (30, 0, 0))
    by (vm_compute; reflexivity).
  split; [exact Ha|]. split; [exact Ho|]. split; [reflexivity|].
  exact (proj1 (proj2 (lat_lon2mesh_code_eps_carry _ _ _ _ Ha Ho))).
Defined.

(** [lat_lon2mesh_code] is partial, and its offsets can be negative: for
    the finite coordinate [(-0.5, 130)] the assertion on the secondary
    latitude digit fires; and inside the box, at [(36, 138.45)], the
    longitude offset is negative. *)
Lemma lat_lon2mesh_code_not_total :
  (F.valid (F.opp (F.lit 5 1)) = true /\ F.is_finite (F.opp (F.lit 5 1)) = true /\
   F.valid (F.of_Z 130) = true /\ F.is_finite (F.of_Z 130) = true /\
   lat_lon2mesh_code (F.opp (F.lit 5 1)) (F.of_Z 130) = Raise AssertionError) /\
  (in_box (F.of_Z 36) (F.lit 13845 2) = true /\
   exists mc, lat_lon2mesh_code (F.of_Z 36) (F.lit 13845 2) = Return mc /\
              F.ltb (mod_longitude mc) (S754_zero false) = true).
Proof.
  split.
  - repeat split; vm_compute; reflexivity.
  - split; [vm_compute; reflexivity|].
    eexists. split; [vm_compute; reflexivity|]. vm_compute. reflexivity.
Qed.

(** X1: for every coordinate inside the domain box, [lat_lon2mesh_code]
    returns a mesh code (no assertion fires, nothing is raised) whose
    secondary digits are in [0,7], whose tertiary digits are in [0,9] and
    whose primary code has latitude part in [30,70] and longitude part in
    [20,55]. *)
Theorem lat_lon2mesh_code_in_box_digits (lat lon : F.float) :
  F.valid lat = true -> F.valid lon = true -> in_box lat lon = true ->
  exists mc,
    lat_lon2mesh_code lat lon = Return mc /\ digits_in_range mc /\
    (30 <= mesh_code1 mc / 100 <= 70) /\ (20 <= mesh_code1 mc mod 100 <= 55).
Proof.
  intros Hvlat Hvlon Hbox.
  destruct (lat_lon2mesh_code_in_box lat lon Hvlat Hvlon Hbox)
    as (mc & lat1 & lat2 & lat3 & lon1 & lon2 & lon3 & Hmc & H1 & H2 & H3 & Hr).
  exists mc. split; [exact Hmc|]. unfold digits_in_range. rewrite H1, H2, H3.
  destruct (div_mod_digits lat1 lon1 100 ltac:(lia)) as [-> ->].
  destruct (div_mod_digits lat2 lon2 10 ltac:(lia)) as [-> ->].
  destruct (div_mod_digits lat3 lon3 10 ltac:(lia)) as [-> ->].
  lia.
Qed.

Lemma lat_lon2mesh_code_in_box_digits_witness :
  exists mc,
    lat_lon2mesh_code (F.of_Z 36) (F.lit 13845 2) = Return mc /\
    digits_in_range mc /\
    (30 <= mesh_code1 mc / 100 <= 70) /\ (20 <= mesh_code1 mc mod 100 <= 55).
Proof.
  apply (lat_lon2mesh_code_in_box_digits (F.of_Z 36) (F.lit 13845 2));
    vm_compute; reflexivity.
Defined.

(** ** [bilinear] *)

Lemma SFcompare_antisym (x y : F.float) :
  SFcompare y x = option_map CompOpp (SFcompare x y).
Proof.
  destruct x as [s1|s1| |s1 m1 e1], y as [s2|s2| |s2 m2 e2];
    try (destruct s1; reflexivity); try (destruct s2; reflexivity);
    try (destruct s1, s2; reflexivity); try reflexivity.
  cbn [SFcompare option_map].
  rewrite (Z.compare_antisym e1 e2).
  replace (Pos.compare_cont Eq m2 m1) with (CompOpp (Pos.compare_cont Eq m1 m2))
    by (apply (Pos.compare_cont_antisym m1 m2 Eq)).
  destruct s1, s2; try reflexivity;
    destruct (e1 ?= e2); cbn [CompOpp]; try reflexivity;
    destruct (Pos.compare_cont Eq m1 m2); reflexivity.
Qed.

Lemma leb_not_ltb (x y : F.float) : F.leb x y = true -> F.ltb y x = false.
Proof.
  unfold F.leb, F.ltb, SFleb, SFltb. rewrite (SFcompare_antisym x y).
  destruct (SFcompare x y) as [[| |]|]; cbn; congruence.
Qed.

(** Inside the box the test at the head of [bilinear] fails. *)
Lemma in_box_guard (lat lon : F.float) :
  in_box lat lon = true ->
  F.ltb lat (F.of_Z 20) || F.ltb (F.of_Z 46) lat
  || F.ltb lon (F.of_Z 120) || F.ltb (F.of_Z 154) lon = false.
Proof.
  unfold in_box. intros H.
  apply andb_prop in H. destruct H as [H H4].
  apply andb_prop in H. destruct H as [H H3].
  apply andb_prop in H. destruct H as [H1 H2].
  rewrite (leb_not_ltb _ _ H1), (leb_not_ltb _ _ H2),
          (leb_not_ltb _ _ H3), (leb_not_ltb _ _ H4).
  reflexivity.
Qed.

(** [bilinear] once the mesh code of the point is known. *)
Lemma bilinear_in_box (PAR : store) (lat lon : F.float) (MC0 : MeshCode) :
  in_box lat lon = true ->
  lat_lon2mesh_code lat lon = Return MC0 ->
  bilinear PAR lat lon =
    match PAR !! mesh_code123 MC0, PAR !! mesh_code123 (east MC0),
          PAR !! mesh_code123 (north MC0), PAR !! mesh_code123 (north_east MC0) with
    | Some (dB00, dL00), Some (dB10, dL10), Some (dB01, dL01), Some (dB11, dL11) =>
        Return (Some (interpol dB00 dB10 dB01 dB11
                               (mod_longitude MC0) (mod_latitude MC0)),
                Some (interpol dL00 dL10 dL01 dL11
                               (mod_longitude MC0) (mod_latitude MC0)))
    | _, _, _, _ => Return (None, None)
    end.
Proof.
  intros Hbox Hmc. unfold bilinear, bilinear_traced.
  rewrite (in_box_guard _ _ Hbox), Hmc.
  unfold emit. cbn [mbind traced_bind].
  unfold east, north, north_east.
  destruct (tonari_mesh_code MC0) as [[MCE MCN] MCNE]. cbn [fst snd].
  unfold por, not_in, getitem, emit.
  destruct (PAR !! mesh_code123 MC0) as [[dB00 dL00]|]; [|reflexivity].
  destruct (PAR !! mesh_code123 MCE) as [[dB10 dL10]|]; [|reflexivity].
  destruct (PAR !! mesh_code123 MCN) as [[dB01 dL01]|]; [|reflexivity].
  destruct (PAR !! mesh_code123 MCNE) as [[dB11 dL11]|]; reflexivity.
Qed.

(** X3: inside the box, when the code of the cell or of one of its three
    neighbours is absent from the store, [bilinear] returns [(None, None)];
    and whatever the store holds, it raises nothing. *)
Theorem bilinear_missing_parameter (PAR : store) (lat lon : F.float) :
  F.valid lat = true -> F.valid lon = true -> in_box lat lon = true ->
  exists MC0,
    lat_lon2mesh_code lat lon = Return MC0 /\
    (PAR !! mesh_code123 MC0 = None \/
     PAR !! mesh_code123 (east MC0) = None \/
     PAR !! mesh_code123 (north MC0) = None \/
     PAR !! mesh_code123 (north_east MC0) = None ->
     bilinear PAR lat lon = Return (None, None)) /\
    exists r, bilinear PAR lat lon = Return r.
Proof.
  intros Hvlat Hvlon Hbox.
  destruct (lat_lon2mesh_code_in_box lat lon Hvlat Hvlon Hbox) as (MC0 & Hrest).
  destruct Hrest as (lat1 & lat2 & lat3 & lon1 & lon2 & lon3 & Hmc & _).
  exists MC0. split; [exact Hmc|].
  rewrite (bilinear_in_box PAR lat lon MC0 Hbox Hmc).
  destruct (PAR !! mesh_code123 MC0) as [[dB00 dL00]|];
    destruct (PAR !! mesh_code123 (east MC0)) as [[dB10 dL10]|];
    destruct (PAR !! mesh_code123 (north MC0)) as [[dB01 dL01]|];
    destruct (PAR !! mesh_code123 (north_east MC0)) as [[dB11 dL11]|];
    (split; [intros [H | [H | [H | H]]]; try discriminate H; reflexivity | eauto]).
Qed.

Lemma bilinear_missing_parameter_witness :
  exists MC0,
    lat_lon2mesh_code (F.of_Z 36) (F.of_Z 138) = Return MC0 /\
    ((∅ : store) !! mesh_code123 MC0 = None \/
     (∅ : store) !! mesh_code123 (east MC0) = None \/
     (∅ : store) !! mesh_code123 (north MC0) = None \/
     (∅ : store) !! mesh_code123 (north_east MC0) = None ->
     bilinear ∅ (F.of_Z 36) (F.of_Z 138) = Return (None, None)) /\
    exists r, bilinear ∅ (F.of_Z 36) (F.of_Z 138) = Return r.
Proof.
  apply (bilinear_missing_parameter ∅ (F.of_Z 36) (F.of_Z 138));
    vm_compute; reflexivity.
Defined.

Lemma mul_zero_r (b z : F.float) :
  F.is_finite b = true -> F.is_zero z = true -> F.is_zero (b * z)%f64 = true.
Proof. destruct b, z; try discriminate; reflexivity. Qed.

Lemma add_zero_r (x z : F.float) :
  F.is_zero z = true ->
  match x with
  | S754_zero true => F.is_zero (x + z)%f64 = true
  | S754_nan | S754_infinity _ => True
  | _ => (x + z)%f64 = x
  end.
Proof.
  destruct z as [sz| | |]; try discriminate. intros _.
  destruct x as [[|]| | |]; try exact I; try reflexivity; destruct sz; reflexivity.
Qed.

Lemma eqb_refl_finite (x : F.float) : F.is_finite x = true -> F.eqb x x = true.
Proof.
  destruct x as [s|s| |s m e]; try discriminate; intros _; [reflexivity|].
  unfold F.eqb, SFeqb, SFcompare.
  rewrite Z.compare_refl, Pos.compare_cont_refl. destruct s; reflexivity.
Qed.

Lemma eqb_zeros (x y : F.float) :
  F.is_zero x = true -> F.is_zero y = true -> F.eqb x y = true.
Proof. destruct x, y; try discriminate; reflexivity. Qed.

(** [interpol] at the south-west corner. *)
Lemma interpol_corner (u1 u2 u3 u4 X Y : F.float) :
  F.is_zero X = true -> F.is_zero Y = true ->
  F.is_finite (u2 - u1)%f64 = true ->
  F.is_finite (u3 - u1)%f64 = true ->
  F.is_finite (u4 - u2 - u3 + u1)%f64 = true ->
  F.eqb (interpol u1 u2 u3 u4 X Y) u1 = true /\
  (u1 <> S754_zero true -> interpol u1 u2 u3 u4 X Y = u1).
Proof.
  intros HX HY HB HC HD. unfold interpol.
  pose proof (mul_zero_r _ _ HB HX) as H1.
  pose proof (mul_zero_r _ _ HC HY) as H2.
  pose proof (mul_zero_r _ _ HD HX) as H3.
  assert (H4 : F.is_zero ((u4 - u2 - u3 + u1) * X * Y)%f64 = true).
  { apply mul_zero_r; [|exact HY].
    destruct ((u4 - u2 - u3 + u1) * X)%f64; try discriminate; reflexivity. }
  set (z1 := ((u2 - u1) * X)%f64) in *. set (z2 := ((u3 - u1) * Y)%f64) in *.
  set (z3 := ((u4 - u2 - u3 + u1) * X * Y)%f64) in *.
  assert (Hu1 : F.is_finite u1 = true).
  { destruct u1 as [s|s| |s m e]; try reflexivity;
      destruct u2 as [s2|s2| |s2 m2 e2]; try discriminate HB;
      destruct s, s2; discriminate HB. }
  destruct u1 as [[|]|s| |s m e]; try discriminate Hu1.
  - (* -0.0 *)
    pose proof (add_zero_r (S754_zero true) z1 H1) as A1. cbv iota in A1.
    assert (A2 : F.is_zero (S754_zero true + z1 + z2)%f64 = true).
    { destruct (S754_zero true + z1)%f64 as [s1| | |]; try discriminate A1.
      destruct z2 as [s2| | |]; try discriminate H2. destruct s1, s2; reflexivity. }
    assert (A3 : F.is_zero (S754_zero true + z1 + z2 + z3)%f64 = true).
    { destruct (S754_zero true + z1 + z2)%f64 as [s1| | |]; try discriminate A2.
      destruct z3 as [s3| | |]; try discriminate H4. destruct s1, s3; reflexivity. }
    split; [apply eqb_zeros; [exact A3 | reflexivity] | congruence].
  - (* +0.0 *)
    pose proof (add_zero_r (S754_zero false) z1 H1) as A1. cbv iota in A1. rewrite A1.
    pose proof (add_zero_r (S754_zero false) z2 H2) as A2. cbv iota in A2. rewrite A2.
    pose proof (add_zero_r (S754_zero false) z3 H4) as A3. cbv iota in A3. rewrite A3.
    split; reflexivity.
  - pose proof (add_zero_r (S754_finite s m e) z1 H1) as A1. cbv iota in A1. rewrite A1.
    pose proof (add_zero_r (S754_finite s m e) z2 H2) as A2. cbv iota in A2. rewrite A2.
    pose proof (add_zero_r (S754_finite s m e) z3 H4) as A3. cbv iota in A3. rewrite A3.
    split; [apply eqb_refl_finite; reflexivity | reflexivity].
Qed.

(** X4: at the south-west corner of a tertiary cell (offset exactly (0, 0))
    with the four parameter entries of the scenario, [bilinear] returns
    exactly [(12.345, -5.678)]; and [interpol] with [X = 0] and [Y = 0]
    returns [u1] (the same float unless [u1] is [-0.0], which comes back as
    a zero), provided the differences of the corner values are finite. *)
Theorem bilinear_sw_corner (PAR : store) (lat lon : F.float) :
  F.valid lat = true -> F.valid lon = true -> in_box lat lon = true ->
  (exists MC0,
     lat_lon2mesh_code lat lon = Return MC0 /\
     (F.is_zero (mod_latitude MC0) = true ->
      F.is_zero (mod_longitude MC0) = true ->
      PAR !! mesh_code123 MC0
        = Some (F.lit 12345 3, F.opp (F.lit 5678 3)) ->
      PAR !! mesh_code123 (east MC0)
        = Some (F.lit 12445 3, F.opp (F.lit 5578 3)) ->
      PAR !! mesh_code123 (north MC0)
        = Some (F.lit 12545 3, F.opp (F.lit 5478 3)) ->
      PAR !! mesh_code123 (north_east MC0)
        = Some (F.lit 12645 3, F.opp (F.lit 5378 3)) ->
      bilinear PAR lat lon
      = Return (Some (F.lit 12345 3), Some (F.opp (F.lit 5678 3))))) /\
  (forall u1 u2 u3 u4 X Y : F.float,
     F.is_zero X = true -> F.is_zero Y = true ->
     F.is_finite (u2 - u1)%f64 = true ->
     F.is_finite (u3 - u1)%f64 = true ->
     F.is_finite (u4 - u2 - u3 + u1)%f64 = true ->
     F.eqb (interpol u1 u2 u3 u4 X Y) u1 = true /\
     (u1 <> S754_zero true -> interpol u1 u2 u3 u4 X Y = u1)).
Proof.
  intros Hvlat Hvlon Hbox. split; [|exact interpol_corner].
  destruct (lat_lon2mesh_code_in_box lat lon Hvlat Hvlon Hbox) as (MC0 & Hrest).
  destruct Hrest as (lat1 & lat2 & lat3 & lon1 & lon2 & lon3 & Hmc & _).
  exists MC0. split; [exact Hmc|].
  intros Hzlat Hzlon H0 HE HN HNE.
  rewrite (bilinear_in_box PAR lat lon MC0 Hbox Hmc), H0, HE, HN, HNE.
  assert (HdB : interpol (F.lit 12345 3) (F.lit 12445 3) (F.lit 12545 3)
                  (F.lit 12645 3) (mod_longitude MC0) (mod_latitude MC0)
                = F.lit 12345 3).
  { apply interpol_corner; try assumption; try (vm_compute; reflexivity).
    vm_compute. discriminate. }
  assert (HdL : interpol (F.opp (F.lit 5678 3)) (F.opp (F.lit 5578 3))
                  (F.opp (F.lit 5478 3)) (F.opp (F.lit 5378 3))
                  (mod_longitude MC0) (mod_latitude MC0)
                = F.opp (F.lit 5678 3)).
  { apply interpol_corner; try assumption; try (vm_compute; reflexivity).
    vm_compute. discriminate. }
  rewrite HdB, HdL. reflexivity.
Qed.

(** The scenario at [(36, 138)]: mesh code 5438-00-00 and its neighbours
    54380001, 54380010 and 54380011. *)
Lemma bilinear_sw_corner_witness :
  bilinear
    (<[54380000 := (F.lit 12345 3, F.opp (F.lit 5678 3))]>
     (<[54380001 := (F.lit 12445 3, F.opp (F.lit 5578 3))]>
      (<[54380010 := (F.lit 12545 3, F.opp (F.lit 5478 3))]>
       (<[54380011 := (F.lit 12645 3, F.opp (F.lit 5378 3))]> ∅))))
    (F.of_Z 36) (F.of_Z 138)
  = Return (Some (F.lit 12345 3), Some (F.opp (F.lit 5678 3))).
Proof.
  assert (Hv1 : F.valid (F.of_Z 36) = true) by (vm_compute; reflexivity).
  assert (Hv2 : F.valid (F.of_Z 138) = true) by (vm_compute; reflexivity).
  assert (Hb : in_box (F.of_Z 36) (F.of_Z 138) = true) by (vm_compute; reflexivity).
  match goal with |- bilinear ?P _ _ = _ =>
    destruct (bilinear_sw_corner P (F.of_Z 36) (F.of_Z 138) Hv1 Hv2 Hb)
      as [(MC0 & Hmc & H) _]
  end.
  assert (HMC : MC0 = MeshCode3 5438 0 0).
  { assert (Hc : lat_lon2mesh_code (F.of_Z 36) (F.of_Z 138)
                 = Return (MeshCode3 5438 0 0)) by (vm_compute; reflexivity).
    rewrite Hc in Hmc. injection Hmc as <-. reflexivity. }
  subst MC0. apply H; vm_compute; reflexivity.
Defined.

(** X5: inside the box with the four entries present, [bilinear] returns
    the interpolation of the first components and of the second components
    of the entries of the cell, its east, north and north-east neighbour
    (in this order), at the longitude offset along X and the latitude
    offset along Y. *)
Theorem bilinear_interpolates (PAR : store) (lat lon : F.float) (MC0 : MeshCode)
    (dB00 dL00 dB10 dL10 dB01 dL01 dB11 dL11 : F.float) :
  in_box lat lon = true ->
  lat_lon2mesh_code lat lon = Return MC0 ->
  PAR !! mesh_code123 MC0 = Some (dB00, dL00) ->
  PAR !! mesh_code123 (east MC0) = Some (dB10, dL10) ->
  PAR !! mesh_code123 (north MC0) = Some (dB01, dL01) ->
  PAR !! mesh_code123 (north_east MC0) = Some (dB11, dL11) ->
  bilinear PAR lat lon
  = Return (Some (interpol dB00 dB10 dB01 dB11
                           (mod_longitude MC0) (mod_latitude MC0)),
            Some (interpol dL00 dL10 dL01 dL11
                           (mod_longitude MC0) (mod_latitude MC0))).
Proof.
  intros Hbox Hmc H0 HE HN HNE.
  rewrite (bilinear_in_box PAR lat lon MC0 Hbox Hmc), H0, HE, HN, HNE.
  reflexivity.
Qed.

(** The entries of the cell 5438-00-00 and of its neighbours, for the
    point (36, 138). *)
Lemma bilinear_interpolates_witness :
  bilinear
    (<[54380000 := (F.of_Z 1, F.of_Z 2)]>
     (<[54380001 := (F.of_Z 3, F.of_Z 4)]>
      (<[54380010 := (F.of_Z 5, F.of_Z 6)]>
       (<[54380011 := (F.of_Z 7, F.of_Z 8)]> ∅))))
    (F.of_Z 36) (F.of_Z 138)
  = Return (Some (interpol (F.of_Z 1) (F.of_Z 3) (F.of_Z 5) (F.of_Z 7)
                           (S754_zero false) (S754_zero false)),
            Some (interpol (F.of_Z 2) (F.of_Z 4) (F.of_Z 6) (F.of_Z 8)
                           (S754_zero false) (S754_zero false))).
Proof.
  match goal with |- bilinear ?P _ _ = _ =>
    apply (bilinear_interpolates P (F.of_Z 36) (F.of_Z 138) (MeshCode3 5438 0 0))
  end; vm_compute; reflexivity.
Defined.

(** ** [tonari_mesh_code] *)

Lemma chain_step_digits_range (d : Z * Z * Z) :
  0 <= d.1.2 <= 7 -> 0 <= d.2 <= 9 ->
  0 <= (chain_step d).1.2 <= 7 /\ 0 <= (chain_step d).2 <= 9.
Proof. destruct d as [[d1 d2] d3]. apply chain_step_range. Qed.

(** X6: the neighbours of a mesh code with digits in range have digits in
    range. *)
Theorem tonari_keeps_digits_in_range (mc : MeshCode) :
  digits_in_range mc ->
  digits_in_range (east mc) /\ digits_in_range (north mc) /\
  digits_in_range (north_east mc).
Proof.
  intros H. pose proof (tonari_digits mc H) as Ht.
  unfold east, north, north_east. rewrite Ht. cbn [fst snd].
  destruct H as [[Ha2 Ho2] [Ha3 Ho3]].
  pose proof (chain_step_digits_range (lat_digits mc) Ha2 Ha3) as [Hl2 Hl3].
  pose proof (chain_step_digits_range (lon_digits mc) Ho2 Ho3) as [Hg2 Hg3].
  split; [|split]; apply of_digits_range; assumption.
Qed.

Lemma tonari_keeps_digits_in_range_witness :
  digits_in_range (east (MeshCode3 5438 77 99)) /\
  digits_in_range (north (MeshCode3 5438 77 99)) /\
  digits_in_range (north_east (MeshCode3 5438 77 99)).
Proof.
  apply tonari_keeps_digits_in_range.
  repeat split; apply Z.leb_le; reflexivity.
Defined.

Lemma neighbour_codes (mc : MeshCode) :
  digits_in_range mc ->
  mesh_code123 (east mc) = mesh_code123 mc + east_offset mc /\
  mesh_code123 (north mc) = mesh_code123 mc + north_offset mc /\
  mesh_code123 (north_east mc)
    = mesh_code123 mc + east_offset mc + north_offset mc.
Proof.
  intros H. pose proof (tonari_digits mc H) as Ht.
  unfold east, north, north_east. rewrite Ht. cbn [fst snd].
  destruct H as [[Ha2 Ho2] [Ha3 Ho3]].
  unfold east_offset, north_offset, lat_digits, lon_digits, chain_step,
    of_digits, mesh_code123, MeshCode3.
  pose proof (Z.div_mod (mesh_code1 mc) 100 ltac:(lia)).
  pose proof (Z.div_mod (mesh_code2 mc) 10 ltac:(lia)).
  pose proof (Z.div_mod (mesh_code3 mc) 10 ltac:(lia)).
  set (a1 := mesh_code1 mc / 100) in *. set (o1 := mesh_code1 mc mod 100) in *.
  set (a2 := mesh_code2 mc / 10) in *. set (o2 := mesh_code2 mc mod 10) in *.
  set (a3 := mesh_code3 mc / 10) in *. set (o3 := mesh_code3 mc mod 10) in *.
  destruct (Z.eqb_spec o3 9), (Z.eqb_spec o2 7), (Z.eqb_spec a3 9), (Z.eqb_spec a2 7);
    destruct (Z.ltb_spec 9 (o3 + 1)), (Z.ltb_spec 7 (o2 + 1)),
             (Z.ltb_spec 9 (a3 + 1)), (Z.ltb_spec 7 (a2 + 1));
    cbn [mesh_code1 mesh_code2 mesh_code3]; try lia.
Qed.

(** X7: for a mesh code with digits in range, the combined code of the
    east neighbour is 1, 91 or 9291 more (no carry, carry into the secondary
    digit, carry into the primary component), that of the north neighbour
    10, 910 or 992910 more, and that of the north-east neighbour both; so
    the four codes [bilinear] looks up are pairwise different. *)
Theorem tonari_combined_codes (mc : MeshCode) :
  digits_in_range mc ->
  mesh_code123 (east mc) = mesh_code123 mc + east_offset mc /\
  mesh_code123 (north mc) = mesh_code123 mc + north_offset mc /\
  mesh_code123 (north_east mc)
    = mesh_code123 mc + east_offset mc + north_offset mc /\
  NoDup [mesh_code123 mc; mesh_code123 (east mc);
         mesh_code123 (north mc); mesh_code123 (north_east mc)].
Proof.
  intros H. destruct (neighbour_codes mc H) as (HE & HN & HNE).
  split; [exact HE|]. split; [exact HN|]. split; [exact HNE|].
  rewrite HE, HN, HNE.
  assert (He : east_offset mc = 1 \/ east_offset mc = 91 \/ east_offset mc = 9291).
  { unfold east_offset. destruct (_ =? 9); [destruct (_ =? 7)|]; auto. }
  assert (Hn : north_offset mc = 10 \/ north_offset mc = 910
               \/ north_offset mc = 992910).
  { unfold north_offset. destruct (_ =? 9); [destruct (_ =? 7)|]; auto. }
  repeat constructor; rewrite ?elem_of_cons, ?elem_of_nil; lia.
Qed.

Lemma tonari_combined_codes_witness :
  mesh_code123 (east (MeshCode3 5438 77 99)) = 54387799 + 9291 /\
  mesh_code123 (north (MeshCode3 5438 77 99)) = 54387799 + 992910 /\
  mesh_code123 (north_east (MeshCode3 5438 77 99)) = 54387799 + 9291 + 992910 /\
  NoDup [54387799; mesh_code123 (east (MeshCode3 5438 77 99));
         mesh_code123 (north (MeshCode3 5438 77 99));
         mesh_code123 (north_east (MeshCode3 5438 77 99))].
Proof.
  apply (tonari_combined_codes (MeshCode3 5438 77 99)).
  repeat split; apply Z.leb_le; reflexivity.
Defined.

(** ** [interpol] *)

Lemma sub_self (u : F.float) :
  F.is_finite u = true -> (u - u)%f64 = S754_zero false.
Proof.
  destruct u as [[|]|s| |s m e]; try discriminate; intros _; try reflexivity.
  unfold F.sub, SFsub. rewrite Z.min_id.
  destruct (shl_align m e e) as [m' e'] eqn:E. cbn [fst].
  destruct s; cbn [cond_Zopp]; rewrite ?Z.sub_diag;
    try (replace (Z.neg m' - Z.neg m') with 0 by lia); reflexivity.
Qed.

Lemma cross_self (u : F.float) :
  F.is_finite u = true -> (u - u - u + u)%f64 = S754_zero false.
Proof.
  intros H. rewrite (sub_self u H).
  destruct u as [[|]|s| |s m e]; try discriminate; try reflexivity.
  change (S754_zero false - S754_finite s m e)%f64 with (S754_finite (negb s) m e).
  unfold F.add, SFadd. rewrite Z.min_id.
  destruct (shl_align m e e) as [m' e'] eqn:E. cbn [fst].
  destruct s; cbn [cond_Zopp negb];
    rewrite ?Z.add_opp_diag_r, ?Z.add_opp_diag_l; reflexivity.
Qed.

Lemma zero_mul_finite (s : bool) (X : F.float) :
  F.is_finite X = true -> F.is_zero (S754_zero s * X)%f64 = true.
Proof. destruct X; try discriminate; reflexivity. Qed.

Lemma zero_mul_finite2 (z X : F.float) :
  F.is_zero z = true -> F.is_finite X = true -> F.is_zero (z * X)%f64 = true.
Proof. destruct z; try discriminate. intros _. apply zero_mul_finite. Qed.

Lemma add_zeros (x y : F.float) :
  F.is_zero x = true -> F.is_zero y = true -> F.is_zero (x + y)%f64 = true.
Proof. destruct x as [[|]| | |], y as [[|]| | |]; try discriminate; reflexivity. Qed.

(** X8: a constant field interpolates to the constant.  When the four
    corner values are the same finite float [u] and the offsets are finite,
    [interpol] returns a float equal to [u], and [u] itself unless [u] is a
    zero. *)
Theorem interpol_constant (u X Y : F.float) :
  F.is_finite u = true -> F.is_finite X = true -> F.is_finite Y = true ->
  F.eqb (interpol u u u u X Y) u = true /\
  (F.is_zero u = false -> interpol u u u u X Y = u).
Proof.
  intros Hu HX HY. unfold interpol.
  rewrite (cross_self u Hu), (sub_self u Hu).
  pose proof (zero_mul_finite false X HX) as H1.
  pose proof (zero_mul_finite false Y HY) as H2.
  pose proof (zero_mul_finite2 _ Y H1 HY) as H3.
  set (z1 := (S754_zero false * X)%f64) in *.
  set (z2 := (S754_zero false * Y)%f64) in *.
  set (z3 := (z1 * Y)%f64) in *.
  destruct u as [su|su| |su mu eu]; try discriminate Hu.
  - split; [|discriminate].
    apply eqb_zeros; [|reflexivity].
    apply add_zeros; [apply add_zeros; [apply add_zeros|]|]; auto.
  - pose proof (add_zero_r (S754_finite su mu eu) z1 H1) as A1. cbv iota in A1. rewrite A1.
    pose proof (add_zero_r (S754_finite su mu eu) z2 H2) as A2. cbv iota in A2. rewrite A2.
    pose proof (add_zero_r (S754_finite su mu eu) z3 H3) as A3. cbv iota in A3. rewrite A3.
    split; [apply eqb_refl_finite; reflexivity | reflexivity].
Qed.

Lemma interpol_constant_witness :
  F.eqb (interpol (F.lit 12345 3) (F.lit 12345 3) (F.lit 12345 3) (F.lit 12345 3)
                  (F.lit 25 2) (F.lit 75 2)) (F.lit 12345 3) = true /\
  (F.is_zero (F.lit 12345 3) = false ->
   interpol (F.lit 12345 3) (F.lit 12345 3) (F.lit 12345 3) (F.lit 12345 3)
            (F.lit 25 2) (F.lit 75 2) = F.lit 12345 3).
Proof.
  apply (interpol_constant (F.lit 12345 3) (F.lit 25 2) (F.lit 75 2));
    vm_compute; reflexivity.
Defined.

(** ** Not-a-number coordinates *)



Lemma bilinear_mesh_code_raises (PAR : store) (lat lon : F.float) (e : exn) :
  F.ltb lat (F.of_Z 20) || F.ltb (F.of_Z 46) lat
  || F.ltb lon (F.of_Z 120) || F.ltb (F.of_Z 154) lon = false ->
  lat_lon2mesh_code lat lon = Raise e ->
  bilinear PAR lat lon = Raise e.
Proof.
  intros H He. unfold bilinear, bilinear_traced. rewrite H, He. reflexivity.
Qed.

Lemma main_bilinear_raises (lines : list string) (lat lon : F.float) (e : exn) :
  (forall PAR, bilinear PAR lat lon = Raise e) ->
  main (Some lines) lat lon = Raise e.
Proof.
  intros H. unfold main, load_parameter.
  destruct (load_lines_total lines ∅) as [PAR ->].
  cbn [mbind result_bind rbind]. rewrite H. reflexivity.
Qed.

(** X9: a NaN coordinate is not rejected by the box test, whose four
    comparisons are all false on it; [math.trunc] then raises [ValueError]
    in [lat_lon2mesh_code], [bilinear] raises it before looking anything up,
    and [main] ends with it instead of printing.  This happens for a NaN
    latitude whenever the longitude is not outside [120, 154], and for a NaN
    longitude whenever the latitude is inside [20, 46]. *)
Theorem bilinear_nan_raises (lat lon : F.float) :
  (F.is_nan lat = true /\
   F.ltb lon (F.of_Z 120) = false /\ F.ltb (F.of_Z 154) lon = false) \/
  (F.is_nan lon = true /\ F.valid lat = true /\
   F.leb (F.of_Z 20) lat = true /\ F.leb lat (F.of_Z 46) = true) ->
  (forall PAR, bilinear_traced PAR lat lon
               = ([CallMeshCode lat lon], Raise ValueError)) /\
  (forall PAR, bilinear PAR lat lon = Raise ValueError) /\
  (forall lines, main (Some lines) lat lon = Raise ValueError).
Proof.
  intros H.
  assert (Hg : F.ltb lat (F.of_Z 20) || F.ltb (F.of_Z 46) lat
               || F.ltb lon (F.of_Z 120) || F.ltb (F.of_Z 154) lon = false
               /\ lat_lon2mesh_code lat lon = Raise ValueError).
  { destruct H as [(Hn & H1 & H2) | (Hn & Hv & H1 & H2)].
    - destruct lat; try discriminate Hn. rewrite H1, H2. split; reflexivity.
    - destruct lon; try discriminate Hn.
      rewrite (leb_not_ltb _ _ H1), (leb_not_ltb _ _ H2). split; [reflexivity|].
      destruct (spec_lat_digits_in_box lat Hv H1 H2) as (a1 & a2 & a3 & Ha & _).
      unfold spec_lat_digits in Ha.
      destruct (F.trunc (lat * F.lit 15 1)%f64) as [z|] eqn:E; [|discriminate Ha].
      unfold lat_lon2mesh_code. rewrite E. reflexivity. }
  destruct Hg as [Hg Hmc].
  assert (Hb : forall PAR, bilinear PAR lat lon = Raise ValueError).
  { intros PAR. apply bilinear_mesh_code_raises; assumption. }
  split; [|split; [exact Hb|]].
  - intros PAR. unfold bilinear_traced. rewrite Hg, Hmc. reflexivity.
  - intros lines. apply main_bilinear_raises, Hb.
Qed.

Lemma bilinear_nan_raises_witness :
  (forall PAR, bilinear_traced PAR S754_nan (F.of_Z 135)
               = ([CallMeshCode S754_nan (F.of_Z 135)], Raise ValueError)) /\
  (forall PAR, bilinear PAR S754_nan (F.of_Z 135) = Raise ValueError) /\
  (forall lines, main (Some lines) S754_nan (F.of_Z 135) = Raise ValueError).
Proof.
  apply (bilinear_nan_raises S754_nan (F.of_Z 135)).
  left. repeat split; vm_compute; reflexivity.
Defined.

(** ** [main] *)






(** ** [load_parameter] *)




(** ** Lines [PAR_RE] accepts *)

Section RegexAccepts.

Variables (p' : list re_item) (g : list string).





End RegexAccepts.










(** ** The cell [lat_lon2mesh_code] returns *)

Lemma scaled_fl (G V : Z) : 0 <= V -> repr V -> scaled (- G) (fl G V) = V.
Proof.
  intros HV Hr. destruct (Z.eq_dec V 0) as [->|H0]; [reflexivity|].
  destruct (fl_decomp G V ltac:(lia) Hr) as (m & e & c & -> & Hm & Hd & Hc & HC).
  unfold scaled. cbn [cond_Zopp]. rewrite Z2Pos.id by lia.
  destruct HC as [[-> ->] | [-> ->]].
  - replace (G - c + - G) with (- c) by lia.
    rewrite shiftl_neg_div by lia. apply Z.div_mul, Z.pow_nonzero; lia.
  - replace (G + c + - G) with c by lia. apply Z.shiftl_mul_pow2. lia.
Qed.

Lemma carry_normalize_index (d1 d2 d3 : Z) :
  let '(c1, c2, c3) := carry_normalize (d1, d2, d3) in
  80 * c1 + 10 * c2 + c3 = 80 * d1 + 10 * d2 + d3.
Proof.
  unfold carry_normalize.
  destruct (Z.eqb_spec d3 10), (Z.eqb_spec (d2 + 1) 8); lia.
Qed.

(** X15: the cell returned contains the point, up to [2^-35] of a cell.
    For a coordinate inside the box, with [row] and [column] the position of
    the returned cell, [120 * lat] lies between [row - 2^-35] and
    [row + 1 + 2^-39], and [80 * (lon - 100)] between [column - 2^-36] and
    [column + 1]; the inequalities are stated on the integers
    [lat * 2^48] and [lon * 2^46].  The slack below comes from the
    [0.00000000001] added before truncating, the slack above from rounding
    [lat * 1.5]. *)
Theorem lat_lon2mesh_code_cell (lat lon : F.float) :
  F.valid lat = true -> F.valid lon = true -> in_box lat lon = true ->
  exists mc,
    lat_lon2mesh_code lat lon = Return mc /\
    row mc * 2 ^ 49 - 2 ^ 14 <= 240 * scaled 48 lat
      < (row mc + 1) * 2 ^ 49 + 2 ^ 10 /\
    column mc * 2 ^ 46 - 2 ^ 10 <= 80 * (scaled 46 lon - 100 * 2 ^ 46)
      < (column mc + 1) * 2 ^ 46.
Proof.
  intros Hvlat Hvlon Hbox. unfold in_box in Hbox.
  apply andb_prop in Hbox. destruct Hbox as [Hbox H4].
  apply andb_prop in Hbox. destruct Hbox as [Hbox H3].
  apply andb_prop in Hbox. destruct Hbox as [H1 H2].
  destruct (spec_lat_digits_cell lat Hvlat H1 H2)
    as (a1 & a2 & a3 & La & Ha & Ha1 & Ha2 & Ha3 & -> & HLa & HrLa & Hrow).
  destruct (spec_lon_digits_cell lon Hvlon H3 H4)
    as (o1 & o2 & o3 & Lo & Ho & Ho1 & Ho2 & Ho3 & -> & HLo & HrLo & Hcol).
  rewrite (lat_lon2mesh_code_factor _ _ _ _ Ha Ho).
  pose proof (carry_normalize_range a1 a2 a3 Ha2 Ha3) as Hca.
  pose proof (carry_normalize_range o1 o2 o3 Ho2 Ho3) as Hco.
  pose proof (carry_normalize_index a1 a2 a3) as Hia.
  pose proof (carry_normalize_index o1 o2 o3) as Hio.
  destruct (carry_normalize (a1, a2, a3)) as [[lat1 lat2] lat3].
  destruct (carry_normalize (o1, o2, o3)) as [[lon1 lon2] lon3].
  unfold mesh_code_of_digits.
  rewrite !of_int_fl by lia. cbn [mbind result_bind rbind].
  rewrite !assert_range by lia. cbn [mbind result_bind rbind].
  eexists. split; [reflexivity|].
  unfold row, column, lat_digits, lon_digits. cbn [mesh_code1 mesh_code2 mesh_code3].
  destruct (div_mod_digits lat1 lon1 100 ltac:(lia)) as [-> ->].
  destruct (div_mod_digits lat2 lon2 10 ltac:(lia)) as [-> ->].
  destruct (div_mod_digits lat3 lon3 10 ltac:(lia)) as [-> ->].
  change 48 with (- (-48)). change 46 with (- (-46)) at 2 4.
  rewrite (scaled_fl (-48) La HLa HrLa), (scaled_fl (-46) Lo HLo HrLo).
  rewrite Hia, Hio. split; [exact Hrow | exact Hcol].
Qed.

(** The point (36, 138.45): the float nearest to 138.45 is below
    138.45 = 100 + 3076 / 80, and the cell is the column 3076. *)
Lemma lat_lon2mesh_code_cell_witness :
  exists mc,
    lat_lon2mesh_code (F.of_Z 36) (F.lit 13845 2) = Return mc /\
    row mc * 2 ^ 49 - 2 ^ 14 <= 240 * scaled 48 (F.of_Z 36)
      < (row mc + 1) * 2 ^ 49 + 2 ^ 10 /\
    column mc * 2 ^ 46 - 2 ^ 10
      <= 80 * (scaled 46 (F.lit 13845 2) - 100 * 2 ^ 46)
      < (column mc + 1) * 2 ^ 46.
Proof.
  apply (lat_lon2mesh_code_cell (F.of_Z 36) (F.lit 13845 2));
    vm_compute; reflexivity.
Defined.

(** ** Neighbours as adjacent cells *)

Lemma row_column_of_digits (l1 l2 l3 g1 g2 g3 : Z) :
  0 <= g1 < 100 -> 0 <= g2 < 10 -> 0 <= g3 < 10 ->
  row (of_digits (l1, l2, l3) (g1, g2, g3)) = 80 * l1 + 10 * l2 + l3 /\
  column (of_digits (l1, l2, l3) (g1, g2, g3)) = 80 * g1 + 10 * g2 + g3.
Proof.
  intros H1 H2 H3.
  unfold row, column, lat_digits, lon_digits, of_digits, MeshCode3.
  cbn [mesh_code1 mesh_code2 mesh_code3].
  destruct (div_mod_digits l1 g1 100 H1) as [-> ->].
  destruct (div_mod_digits l2 g2 10 H2) as [-> ->].
  destruct (div_mod_digits l3 g3 10 H3) as [-> ->].
  split; reflexivity.
Qed.

Lemma chain_step_index (d1 d2 d3 : Z) :
  0 <= d2 <= 7 -> 0 <= d3 <= 9 ->
  let '(c1, c2, c3) := chain_step (d1, d2, d3) in
  80 * c1 + 10 * c2 + c3 = 80 * d1 + 10 * d2 + d3 + 1 /\
  d1 <= c1 <= d1 + 1 /\ 0 <= c2 <= 7 /\ 0 <= c3 <= 9.
Proof.
  intros H2 H3. unfold chain_step.
  destruct (Z.ltb_spec 9 (d3 + 1)), (Z.ltb_spec 7 (d2 + 1)); lia.
Qed.

(** X16: the neighbours are the adjacent cells.  For a mesh code with
    digits in range whose primary longitude part is below 99, the east
    neighbour is the cell of the same row and the next column, the north
    neighbour the cell of the next row and the same column, and the
    north-east neighbour the cell of the next row and the next column,
    carries included. *)
Theorem tonari_adjacent_cells (mc : MeshCode) :
  digits_in_range mc -> mesh_code1 mc mod 100 < 99 ->
  (row (east mc) = row mc /\ column (east mc) = column mc + 1) /\
  (row (north mc) = row mc + 1 /\ column (north mc) = column mc) /\
  (row (north_east mc) = row mc + 1 /\ column (north_east mc) = column mc + 1).
Proof.
  intros H Hlon. pose proof (tonari_digits mc H) as Ht.
  unfold east, north, north_east. rewrite Ht. cbn [fst snd].
  destruct H as [[Ha2 Ho2] [Ha3 Ho3]].
  pose proof (Z.mod_pos_bound (mesh_code1 mc) 100 ltac:(lia)) as Ho1.
  pose proof (chain_step_index (mesh_code1 mc / 100) _ _ Ha2 Ha3) as Hn.
  pose proof (chain_step_index (mesh_code1 mc mod 100) _ _ Ho2 Ho3) as He.
  fold (lat_digits mc) in Hn. fold (lon_digits mc) in He.
  assert (Hr : row mc = 80 * (mesh_code1 mc / 100) + 10 * (mesh_code2 mc / 10)
                        + mesh_code3 mc / 10) by reflexivity.
  assert (Hc : column mc = 80 * (mesh_code1 mc mod 100)
                           + 10 * (mesh_code2 mc mod 10) + mesh_code3 mc mod 10)
    by reflexivity.
  destruct (chain_step (lat_digits mc)) as [[l1 l2] l3].
  destruct (chain_step (lon_digits mc)) as [[g1 g2] g3].
  unfold lat_digits, lon_digits.
  destruct (row_column_of_digits (mesh_code1 mc / 100) (mesh_code2 mc / 10)
              (mesh_code3 mc / 10) g1 g2 g3) as [-> ->]; try lia.
  destruct (row_column_of_digits l1 l2 l3 (mesh_code1 mc mod 100)
              (mesh_code2 mc mod 10) (mesh_code3 mc mod 10)) as [-> ->]; try lia.
  destruct (row_column_of_digits l1 l2 l3 g1 g2 g3) as [-> ->]; try lia.
Qed.

Lemma tonari_adjacent_cells_witness :
  (row (east (MeshCode3 5438 77 99)) = row (MeshCode3 5438 77 99) /\
   column (east (MeshCode3 5438 77 99)) = column (MeshCode3 5438 77 99) + 1) /\
  (row (north (MeshCode3 5438 77 99)) = row (MeshCode3 5438 77 99) + 1 /\
   column (north (MeshCode3 5438 77 99)) = column (MeshCode3 5438 77 99)) /\
  (row (north_east (MeshCode3 5438 77 99)) = row (MeshCode3 5438 77 99) + 1 /\
   column (north_east (MeshCode3 5438 77 99))
   = column (MeshCode3 5438 77 99) + 1).
Proof.
  apply (tonari_adjacent_cells (MeshCode3 5438 77 99)).
  - repeat split; apply Z.leb_le; reflexivity.
  - apply Z.ltb_lt. reflexivity.
Defined.
